(** * delaunaytests: the fixture loader and its geometry helpers

    A shallow embedding of [src/loader.mjs] and of its near-duplicate
    [src/unnamed/part_000], with the properties the specification states
    about them.

    Conventions of the embedding.
    - Where the code only compares numbers and handles the special values
      ([pointsExtent], the records), a JavaScript number is a [number]: NaN,
      the two infinities, or a finite value carried as an exact rational,
      with a single zero; the special values follow IEEE 754 as JavaScript
      does.
    - Where rounding decides ([scalePoints] fitting a box), the functions
      are embedded over binary64 itself, in [Binary64]: the values and the
      correctly rounded operations of [SpecFloat].
    - [Number::toString] belongs to the engine: the functions that build the
      de-duplication key take it as the parameter [Number_toString].
    - An exception is a [Throw] in the [result] monad.
    - The text of a file is represented by what [JSON.parse] makes of it. *)

From Stdlib Require Import Ascii String QArith Lqa SpecFloat.
From stdpp Require Import gmap strings list.

Close Scope Q_scope.
Set Warnings "-register-all,-clear-no-such-hyp".
Local Open Scope string_scope.
Local Open Scope list_scope.

(** ** JavaScript values used by the loader *)

(** Numbers. *)
Inductive number : Type :=
| NaN
| NegInfinity
| Fin (q : Q)
| Infinity.

Definition isNaN (a : number) : bool :=
  match a with NaN => true | _ => false end.

(** [a <= b] as JavaScript evaluates it: false as soon as a NaN is involved. *)
Definition num_leb (a b : number) : bool :=
  match a, b with
  | NaN, _ | _, NaN => false
  | NegInfinity, _ => true
  | _, Infinity => true
  | Fin p, Fin q => Qle_bool p q
  | _, _ => false
  end.

(** [a < b]. *)
Definition num_ltb (a b : number) : bool :=
  match a, b with
  | NaN, _ | _, NaN => false
  | Fin p, Fin q => negb (Qle_bool q p)
  | NegInfinity, NegInfinity => false
  | NegInfinity, _ => true
  | Infinity, _ => false
  | _, Infinity => true
  | _, NegInfinity => false
  end.

(** [a === b] on numbers: NaN differs from everything, itself included. *)
Definition num_eqb (a b : number) : bool :=
  match a, b with
  | NegInfinity, NegInfinity | Infinity, Infinity => true
  | Fin p, Fin q => Qeq_bool p q
  | _, _ => false
  end.

(** [Math.min(a, b)] and [Math.max(a, b)]: NaN when an argument is NaN. *)
Definition Math_min (a b : number) : number :=
  if isNaN a || isNaN b then NaN else if num_leb a b then a else b.

Definition Math_max (a b : number) : number :=
  if isNaN a || isNaN b then NaN else if num_leb b a then a else b.

Definition num_neg (a : number) : number :=
  match a with
  | NaN => NaN
  | NegInfinity => Infinity
  | Infinity => NegInfinity
  | Fin q => Fin (- q)
  end.

(** [a + b]: opposite infinities cancel to NaN. *)
Definition num_add (a b : number) : number :=
  match a, b with
  | NaN, _ | _, NaN => NaN
  | Infinity, NegInfinity | NegInfinity, Infinity => NaN
  | Infinity, _ | _, Infinity => Infinity
  | NegInfinity, _ | _, NegInfinity => NegInfinity
  | Fin p, Fin q => Fin (p + q)
  end.

Definition num_sub (a b : number) : number := num_add a (num_neg b).

(** The infinity that has the sign of [q] times the sign given by
    [positive]; NaN when [q] is zero. *)
Definition signed_infinity (positive : bool) (q : Q) : number :=
  match (0 ?= q)%Q with
  | Eq => NaN
  | Lt => if positive then Infinity else NegInfinity
  | Gt => if positive then NegInfinity else Infinity
  end.

(** [a * b]: zero times an infinity is NaN. *)
Definition num_mul (a b : number) : number :=
  match a, b with
  | NaN, _ | _, NaN => NaN
  | Fin p, Fin q => Fin (p * q)
  | Infinity, Infinity | NegInfinity, NegInfinity => Infinity
  | Infinity, NegInfinity | NegInfinity, Infinity => NegInfinity
  | Infinity, Fin q | Fin q, Infinity => signed_infinity true q
  | NegInfinity, Fin q | Fin q, NegInfinity => signed_infinity false q
  end.

(** [a / b].  A finite value divided by zero is an infinity of the sign of
    the dividend, zero divided by zero is NaN, a finite value divided by an
    infinity is zero, and an infinity divided by an infinity is NaN. *)
Definition num_div (a b : number) : number :=
  match a, b with
  | NaN, _ | _, NaN => NaN
  | Fin p, Fin q =>
      if Qeq_bool q 0 then signed_infinity true p else Fin (p / q)
  | Fin _, _ => Fin 0
  | Infinity, Fin q => if Qle_bool 0 q then Infinity else NegInfinity
  | NegInfinity, Fin q => if Qle_bool 0 q then NegInfinity else Infinity
  | _, _ => NaN
  end.

(** A point [[x, y]] and an edge [[i, j]] (the type [P2] of the declaration
    file). *)
Definition P2 : Type := number * number.

(** [s.includes(sub)]: [sub] occurs in [s] as a contiguous substring. *)
Fixpoint includes (s sub : string) : bool :=
  String.prefix sub s ||
  match s with
  | EmptyString => false
  | String _ s' => includes s' sub
  end.

(** [s.replace(/\\/g, '/')]. *)
Fixpoint replace_backslashes (s : string) : string :=
  match s with
  | EmptyString => EmptyString
  | String c s' =>
      String (if Ascii.eqb c "\"%char then "/"%char else c)
             (replace_backslashes s')
  end.

(** Exceptions the loader can meet. *)
Inductive exn : Type :=
| SyntaxError   (* JSON.parse on malformed text *)
| TypeError     (* iterating or destructuring undefined or null *)
| SystemError.  (* a failed file-system call *)

Inductive result (A : Type) : Type :=
| Ok (a : A)
| Throw (e : exn).
Arguments Ok {A} a.
Arguments Throw {A} e.

#[global] Instance result_ret : MRet result := fun A a => Ok a.
#[global] Instance result_bind : MBind result :=
  fun A B f m => match m with Ok a => f a | Throw e => Throw e end.

Definition throws {A} (m : result A) : Prop := exists e, m = Throw e.

(** [for (const x of v)] needs an iterable: iterating [undefined] throws a
    TypeError.  A present value is an array here. *)
Definition iterate {A} (v : option (list A)) : result (list A) :=
  match v with
  | Some l => Ok l
  | None => Throw TypeError
  end.

(** [array.map(f)] where [f] may throw: the first exception escapes. *)
Fixpoint map_throwing {A B} (f : A -> result B) (l : list A) : result (list B) :=
  match l with
  | [] => Ok []
  | a :: l' => b ← f a; bs ← map_throwing f l'; Ok (b :: bs)
  end.

Declare Scope number_scope.
Delimit Scope number_scope with num.
Bind Scope number_scope with number.
Infix "+" := num_add : number_scope.
Infix "-" := num_sub : number_scope.
Infix "*" := num_mul : number_scope.
Infix "/" := num_div : number_scope.

(** The object literal [{minX, minY, maxX, maxY}] both copies return. *)
Record Extent : Type := mkExtent {
minX : number;
minY : number;
maxX : number;
maxY : number
}.

(** A string, or [null]. *)
Inductive js_string : Type :=
| null
| str (s : string).

(** [!v] for a string or null: only null and the empty string are falsy. *)
Definition falsy (v : js_string) : bool :=
match v with
| null => true
| str s => String.eqb s ""
end.

(** ** The fixture files and the file system

    A fixture is a JSON object with the properties [points], [edges],
    [source] and [error]; a property that is not there reads as [undefined]
    ([None]).  A present property has the type the declaration file gives it.
    [JSON.parse] can also return [null]; a parsed number, string, boolean or
    array has none of the four properties and so behaves as the object with
    all four absent. *)
Record fixture : Type := mkFixture {
  json_points : option (list P2);
  json_edges : option (list P2);
  json_source : option js_string;
  json_error : option js_string
}.

Inductive json : Type :=
| JNull
| JObject (o : fixture).

(** The text of a file, as [JSON.parse] sees it. *)
Inductive file_text : Type :=
| Malformed
| Parses (v : json).

Definition JSON_parse (text : file_text) : result json :=
match text with
| Malformed => Throw SyntaxError
| Parses v => Ok v
end.

(** A directory entry: a regular file (its text is [None] when it cannot be
    read), a directory with its entries, or anything else (a link, a socket),
    for which both [isFile()] and [isDirectory()] are false. *)
Inductive dirent : Type :=
| File (name : string) (text : option file_text)
| Directory (name : string) (ents : list dirent)
| Special (name : string).

Definition ent_name (e : dirent) : string :=
match e with
| File n _ | Directory n _ | Special n => n
end.

Definition isFile (e : dirent) : bool :=
match e with File _ _ => true | _ => false end.

Definition isDirectory (e : dirent) : bool :=
match e with Directory _ _ => true | _ => false end.

(** A [URL] below the directory of the module, as its path segments; the file
    system [fs] is the entry of that directory.  The names of the entries
    are taken as [new URL] leaves them (no [#], [?], [%] or backslash in a
    name) and as distinct within a directory, and a directory of the tree can
    be listed; reading through a link is not part of the model. *)
Definition URL : Type := list string.

Fixpoint find_entry (ents : list dirent) (n : string) : option dirent :=
match ents with
| [] => None
| e :: ents' => if String.eqb (ent_name e) n then Some e else find_entry ents' n
end.

Fixpoint resolve (fs : dirent) (pth : URL) : option dirent :=
match pth with
| [] => Some fs
| n :: rest =>
    match fs with
    | Directory _ ents =>
        match find_entry ents n with
        | Some e => resolve e rest
        | None => None
        end
    | _ => None
    end
end.

(** [fs.readdirSync(dir, {withFileTypes: true})]. *)
Definition readdirSync (fs : dirent) (dir : URL) : result (list dirent) :=
match resolve fs dir with
| Some (Directory _ ents) => Ok ents
| _ => Throw SystemError
end.

(** [fs.readFileSync(pth, 'utf8')]. *)
Definition readFileSync (fs : dirent) (pth : URL) : result file_text :=
match resolve fs pth with
| Some (File _ (Some text)) => Ok text
| _ => Throw SystemError
end.

(** [path.relative(from, to)], with [/] as the separator. *)
Fixpoint relative_segments (from to : URL) : list string :=
match from, to with
| f :: from', t :: to' =>
    if String.eqb f t then relative_segments from' to'
    else (map (fun _ => "..") from ++ to)%list
| _, _ => (map (fun _ => "..") from ++ to)%list
end.

Definition path_relative (from to : URL) : string :=
String.concat "/" (relative_segments from to).

(** The segments of a relative reference such as [./files/]. *)
Fixpoint segments (s cur : string) : list string :=
match s with
| EmptyString => [cur]
| String c s' =>
    if Ascii.eqb c "/"%char then cur :: segments s' ""
    else segments s' (cur +:+ String c "")
end.

(** [relapath(pth)], that is [new URL(pth, BASENAME)]: the reference [pth]
    resolved from the directory of the module; empty segments and [.] name
    no directory. *)
Definition relapath (pth : string) : URL :=
List.filter (fun seg => negb (String.eqb seg "") && negb (String.eqb seg "."))
  (segments pth "").

(** [new URL(dir + '/' + name)]. *)
Definition url_child (dir : URL) (n : string) : URL := (dir ++ [n])%list.

(** [collectFiles(dir)] where [dir] is the directory [d] of the tree: the
    regular files of the directory first, then, directory by directory, what
    the recursive calls collect.  The listing a recursive call reads is the
    one the tree holds for that directory; the local function [children] is
    [ents.filter(ent => ent.isDirectory()).map(d => collectFiles(...))]
    written as one loop (see [collectFiles_at_unfold]). *)
Fixpoint collectFiles_at (dir : URL) (d : dirent) {struct d} : list URL :=
match d with
| Directory _ ents =>
    let files := map (fun e => url_child dir (ent_name e)) (List.filter isFile ents) in
    let children :=
      (fix children (es : list dirent) : list (list URL) :=
         match es with
         | [] => []
         | e :: es' =>
             if isDirectory e
             then collectFiles_at (url_child dir (ent_name e)) e :: children es'
             else children es'
         end) ents in
    (files ++ concat children)%list
| _ => []
end.

(** [collectFiles(dir)]: [readdirSync] throws when [dir] is not a directory
    of the file system. *)
Definition collectFiles (fs : dirent) (dir : URL) : result (list URL) :=
ents ← readdirSync fs dir; Ok (collectFiles_at dir (Directory "" ents)).

(** ** src/loader.mjs *)

Module Loader.

Section Engine.

(** [Number::toString], as string concatenation applies it to a number. *)
Variable Number_toString : number -> string.

(** The body of the loop of [dedupePoints], on the pair of [seen] and [ret]. *)
Definition dedupe_step (st : gset string * list P2) (pnt : P2) : gset string * list P2 :=
let '(seen, ret) := st in
let '(x, y) := pnt in
let key := "" +:+ Number_toString x +:+ "," +:+ Number_toString y in
if bool_decide (key ∈ seen) then (seen, ret)
else ({[key]} ∪ seen, ret ++ [pnt]).

Definition dedupePoints (points : list P2) : list P2 :=
(fold_left dedupe_step points (∅, [])).2.

(** The body of the loop of [pointsExtent]. *)
Definition extent_step (bnd : Extent) (pnt : P2) : Extent :=
let '(x, y) := pnt in
{| minX := Math_min (minX bnd) x;
   minY := Math_min (minY bnd) y;
   maxX := Math_max (maxX bnd) x;
   maxY := Math_max (maxY bnd) y |}.

Definition pointsExtent (points : list P2) : Extent :=
fold_left extent_step points
  {| minX := Infinity; minY := Infinity;
     maxX := num_neg Infinity; maxY := num_neg Infinity |}.

(** [scalePoints(points, width, height, offX = 0, offY = offX)]: an omitted
    offset is [None]. *)
Definition scalePoints (points : list P2) (width height : number)
    (offX' offY' : option number) : list P2 :=
let offX := default (Fin 0) offX' in
let offY := default offX offY' in
let bnd := pointsExtent points in
let curWidth := (maxX bnd - minX bnd)%num in
let curHeight := (maxY bnd - minY bnd)%num in
let scaleX := (width / curWidth)%num in
let scaleY := (height / curHeight)%num in
let scale := Math_min scaleX scaleY in
map (fun '(x, y) =>
       (((x - minX bnd) * scale + offX)%num,
        ((y - minY bnd) * scale + offY)%num)) points.

(** An instance of the class [TestFile].  [points] and [edges] hold what the
    constructor stored, which for [edges] is [undefined] ([None]) when the
    fixture has no such property. *)
Record TestFile : Type := mkTestFile {
  points : option (list P2);
  edges : option (list P2);
  source : js_string;
  error : js_string;
  name : string;
  extent : Extent
}.

(** [new TestFile(raw, pth, dedupe)].  Destructuring [null] throws; the
    defaults [source = null] and [error = null] apply to absent properties;
    [dedupePoints(points)] and [pointsExtent(points)] iterate [points] and
    throw when it is [undefined]. *)
Definition TestFile_new (raw : json) (pth : URL) (dedupe : bool) : result TestFile :=
match raw with
| JNull => Throw TypeError
| JObject o =>
    let source := default null (json_source o) in
    let error := default null (json_error o) in
    this_points ←
      (if dedupe
       then l ← iterate (json_points o); Ok (Some (dedupePoints l))
       else Ok (json_points o));
    let this_name := replace_backslashes (path_relative (relapath "./files/") pth) in
    this_extent ← (l ← iterate (json_points o); Ok (pointsExtent l));
    Ok {| points := this_points;
          edges := json_edges o;
          source := source;
          error := error;
          name := this_name;
          extent := this_extent |}
end.

Definition loadFile (fs : dirent) (pth : URL) (dedupe : bool) : result TestFile :=
text ← readFileSync fs pth;
ret ← JSON_parse text;
TestFile_new ret pth dedupe.

(** [loadTests(allowErrors = false, dedupe = false)]: an omitted argument is
    [None]. *)
Definition loadTests (fs : dirent) (allowErrors' dedupe' : option bool) : result (list TestFile) :=
let allowErrors := default false allowErrors' in
let dedupe := default false dedupe' in
files ← collectFiles fs (relapath "./files");
ret ← map_throwing (fun p => loadFile fs p dedupe) files;
Ok (List.filter (fun test => if allowErrors then true else falsy (error test)) ret).

(** [findTest(tests, name)]; [undefined] is [None]. *)
Definition findTest (tests : list TestFile) (name' : string) : option TestFile :=
List.find (fun t => includes (name t) name') tests.

End Engine.

End Loader.

(** ** src/unnamed/part_000

    The second copy of the module.  Its [dedupePoints] writes a line to the
    console, so the functions that reach it run in [IO]: they take the lines
    written so far and return them with their own appended, also when they
    throw. *)

(** A line [console.log(label, n)]. *)
Definition console : Type := list (string * Z).

Definition IO (A : Type) : Type := console -> result A * console.

#[global] Instance IO_ret : MRet IO := fun A a out => (Ok a, out).
#[global] Instance IO_bind : MBind IO :=
fun A B f m out =>
  match m out with
  | (Ok a, out') => f a out'
  | (Throw e, out') => (Throw e, out')
  end.

(** A computation that writes nothing. *)
Definition lift {A} (r : result A) : IO A := fun out => (r, out).

Definition console_log (label : string) (n : Z) : IO unit :=
fun out => (Ok tt, out ++ [(label, n)]).

(** [array.map(f)] where [f] runs in [IO]. *)
Fixpoint map_IO {A B} (f : A -> IO B) (l : list A) : IO (list B) :=
match l with
| [] => mret []
| a :: l' => b ← f a; bs ← map_IO f l'; mret (b :: bs)
end.

Module Part000.

Section Engine.

Variable Number_toString : number -> string.

Definition dedupe_step (st : gset string * list P2) (pnt : P2) : gset string * list P2 :=
let '(seen, ret) := st in
let '(x, y) := pnt in
let key := "" +:+ Number_toString x +:+ "," +:+ Number_toString y in
if bool_decide (key ∈ seen) then (seen, ret)
else ({[key]} ∪ seen, ret ++ [pnt]).

(** [dedupePoints(points)], with its [console.log('dup', points.length -
    seen.size)] after the loop. *)
Definition dedupePoints (points : list P2) : IO (list P2) :=
let '(seen, ret) := fold_left dedupe_step points (∅, []) in
_ ← console_log "dup" (Z.of_nat (length points) - Z.of_nat (size seen));
mret ret.

Definition extent_step (bnd : Extent) (pnt : P2) : Extent :=
let '(x, y) := pnt in
{| minX := Math_min (minX bnd) x;
   minY := Math_min (minY bnd) y;
   maxX := Math_max (maxX bnd) x;
   maxY := Math_max (maxY bnd) y |}.

Definition pointsExtent (points : list P2) : Extent :=
fold_left extent_step points
  {| minX := Infinity; minY := Infinity;
     maxX := num_neg Infinity; maxY := num_neg Infinity |}.

Definition scalePoints (points : list P2) (width height : number)
    (offX' offY' : option number) : list P2 :=
let offX := default (Fin 0) offX' in
let offY := default offX offY' in
let bnd := pointsExtent points in
let curWidth := (maxX bnd - minX bnd)%num in
let curHeight := (maxY bnd - minY bnd)%num in
let scaleX := (width / curWidth)%num in
let scaleY := (height / curHeight)%num in
let scale := Math_min scaleX scaleY in
map (fun '(x, y) =>
       (((x - minX bnd) * scale + offX)%num,
        ((y - minY bnd) * scale + offY)%num)) points.

(** An instance of the class [Test]. *)
Record Test : Type := mkTest {
  points : option (list P2);
  edges : option (list P2);
  source : js_string;
  error : js_string;
  name : string;
  extent : Extent
}.

(** [new Test(raw, pth, dedupe)]. *)
Definition Test_new (raw : json) (pth : URL) (dedupe : bool) : IO Test :=
match raw with
| JNull => lift (Throw TypeError)
| JObject o =>
    let source := default null (json_source o) in
    let error := default null (json_error o) in
    this_points ←
      (if dedupe
       then l ← lift (iterate (json_points o)); r ← dedupePoints l; mret (Some r)
       else mret (json_points o));
    let this_name := replace_backslashes (path_relative (relapath "./files/") pth) in
    this_extent ← (l ← lift (iterate (json_points o)); mret (pointsExtent l));
    mret {| points := this_points;
            edges := json_edges o;
            source := source;
            error := error;
            name := this_name;
            extent := this_extent |}
end.

Definition loadFile (fs : dirent) (pth : URL) (dedupe : bool) : IO Test :=
text ← lift (readFileSync fs pth);
ret ← lift (JSON_parse text);
Test_new ret pth dedupe.

Definition loadTests (fs : dirent) (allowErrors' dedupe' : option bool) : IO (list Test) :=
let allowErrors := default false allowErrors' in
let dedupe := default false dedupe' in
files ← lift (collectFiles fs (relapath "./files"));
ret ← map_IO (fun p => loadFile fs p dedupe) files;
mret (List.filter (fun test => if allowErrors then true else falsy (error test)) ret).

Definition findTest (tests : list Test) (name' : string) : option Test :=
List.find (fun t => includes (name t) name') tests.

End Engine.

End Part000.

(** ** [dedupePoints] on the store

    Arrays are objects: [points] is a reference to an array of references to
    the arrays [[x, y]].  This reading of [dedupePoints] keeps the references
    and the store, so that it shows which objects the function writes and
    which occurrence it pushes. *)

Module Store.

Definition ref : Type := positive.

(** The arrays the function meets: a point [[x, y]], or an array of
    references. *)
Inductive object : Type :=
| Pair (x y : number)
| Array (elems : list ref).

Abbreviation store := (gmap ref object).

(** [for (const pnt of points)]: the elements of the array at [a]. *)
Definition read_array (h : store) (a : ref) : result (list ref) :=
match h !! a with
| Some (Array l) => Ok l
| _ => Throw TypeError
end.

(** [const [x, y] = pnt]. *)
Definition read_pair (h : store) (p : ref) : result (number * number) :=
match h !! p with
| Some (Pair x y) => Ok (x, y)
| _ => Throw TypeError
end.

(** [ret.push(pnt)]. *)
Definition push (h : store) (ret pnt : ref) : store :=
match h !! ret with
| Some (Array l) => <[ret := Array (l ++ [pnt])]> h
| _ => h
end.

Section Engine.

Variable Number_toString : number -> string.

(** The loop of [dedupePoints] over the elements still to visit. *)
Fixpoint dedupe_loop (ret : ref) (pnts : list ref) (seen : gset string)
    (h : store) : result store :=
match pnts with
| [] => Ok h
| pnt :: rest =>
    xy ← read_pair h pnt;
    let '(x, y) := xy in
    let key := "" +:+ Number_toString x +:+ "," +:+ Number_toString y in
    if bool_decide (key ∈ seen) then dedupe_loop ret rest seen h
    else dedupe_loop ret rest ({[key]} ∪ seen) (push h ret pnt)
end.

(** [dedupePoints(points)]: [ret = []] is a new array; the result is its
    reference and the store after the loop. *)
Definition dedupePoints (points : ref) (h : store) : result (ref * store) :=
let ret := fresh (dom h) in
let h0 := <[ret := Array []]> h in
pnts ← read_array h0 points;
h' ← dedupe_loop ret pnts ∅ h0;
Ok (ret, h').

(** The key [dedupePoints] computes for the point at [p]. *)
Definition key_at (h : store) (p : ref) : string :=
match h !! p with
| Some (Pair x y) => "" +:+ Number_toString x +:+ "," +:+ Number_toString y
| _ => ""
end.

End Engine.

(** The point a reference denotes. *)
Definition point_at (h : store) (p : ref) : option P2 :=
match h !! p with
| Some (Pair x y) => Some (x, y)
| _ => None
end.

End Store.

(** ** [pointsExtent] and [scalePoints] on binary64

    [scalePoints] subtracts, divides, multiplies and adds, and each of these
    operations rounds.  Here the two functions are embedded over the numbers
    of the engine: the values of IEEE 754 binary64 (one NaN, signed zeros and
    infinities) with the operations rounded to nearest, ties to even, as
    [SpecFloat] defines them for [prec = 53] and [emax = 1024].  The text of
    the two functions is the same in [src/loader.mjs] and in
    [src/unnamed/part_000]. *)

Module Binary64.

Definition float : Type := spec_float.

Definition prec : Z := 53.
Definition emax : Z := 1024.

Definition Infinity : float := S754_infinity false.

(** [-a], [a + b], [a - b], [a * b] and [a / b]. *)
Definition neg (a : float) : float := SFopp a.
Definition add (a b : float) : float := SFadd prec emax a b.
Definition sub (a b : float) : float := SFsub prec emax a b.
Definition mul (a b : float) : float := SFmul prec emax a b.
Definition div (a b : float) : float := SFdiv prec emax a b.

(** [a === b], [a <= b] and [a < b]: false as soon as a NaN is involved, and
    the two zeros are equal. *)
Definition eqb (a b : float) : bool := SFeqb a b.

(** The number that an integer literal denotes. *)
Definition of_Z (z : Z) : float := binary_normalize prec emax z 0 false.

(** [Math.min(a, b)] and [Math.max(a, b)]: NaN when an argument is NaN, and
    [-0] counts as smaller than [+0]. *)
Definition Math_min (a b : float) : float :=
match SFcompare a b with
| None => S754_nan
| Some Lt => a
| Some Gt => b
| Some Eq => match b with S754_zero true => b | _ => a end
end.

Definition Math_max (a b : float) : float :=
match SFcompare a b with
| None => S754_nan
| Some Gt => a
| Some Lt => b
| Some Eq => match b with S754_zero false => b | _ => a end
end.

Definition P2 : Type := float * float.

Record Extent : Type := mkExtent {
  minX : float;
  minY : float;
  maxX : float;
  maxY : float
}.

(** The body of the loop of [pointsExtent]. *)
Definition extent_step (bnd : Extent) (pnt : P2) : Extent :=
let '(x, y) := pnt in
{| minX := Math_min (minX bnd) x;
   minY := Math_min (minY bnd) y;
   maxX := Math_max (maxX bnd) x;
   maxY := Math_max (maxY bnd) y |}.

Definition pointsExtent (points : list P2) : Extent :=
fold_left extent_step points
  {| minX := Infinity; minY := Infinity;
     maxX := neg Infinity; maxY := neg Infinity |}.

(** [scalePoints(points, width, height, offX = 0, offY = offX)]: an omitted
    offset is [None]. *)
Definition scalePoints (points : list P2) (width height : float)
    (offX' offY' : option float) : list P2 :=
let offX := default (of_Z 0) offX' in
let offY := default offX offY' in
let bnd := pointsExtent points in
let curWidth := sub (maxX bnd) (minX bnd) in
let curHeight := sub (maxY bnd) (minY bnd) in
let scaleX := div width curWidth in
let scaleY := div height curHeight in
let scale := Math_min scaleX scaleY in
map (fun '(x, y) =>
       (add (mul (sub x (minX bnd)) scale) offX,
        add (mul (sub y (minY bnd)) scale) offY)) points.






End Binary64.

(** ** Auxiliary definitions for the statements *)

(** The loop of [dedupePoints] over elements of any type, given their keys. *)
Definition first_by_step {A} (key : A -> string) (st : gset string * list A) (a : A) :
    gset string * list A :=
if bool_decide (key a ∈ st.1) then st else ({[key a]} ∪ st.1, st.2 ++ [a]).

Definition first_by {A} (key : A -> string) (l : list A) : list A :=
(fold_left (first_by_step key) l (∅, [])).2.

(** The same loop from a state in which [seen] has been reached, by recursion
    on the elements still to visit: what the loop will append to [ret]. *)
Fixpoint keep_first {A} (key : A -> string) (seen : gset string) (l : list A) : list A :=
match l with
| [] => []
| a :: l' =>
    if bool_decide (key a ∈ seen) then keep_first key seen l'
    else a :: keep_first key ({[key a]} ∪ seen) l'
end.

(** The key of a point. *)
Definition point_key (Number_toString : number -> string) (pnt : P2) : string :=
"" +:+ Number_toString pnt.1 +:+ "," +:+ Number_toString pnt.2.

(** [a <= b] and [a === b] on numbers, as propositions. *)
Definition num_le (a b : number) : Prop := num_leb a b = true.
Definition num_eq (a b : number) : Prop := num_eqb a b = true.

(** A point without a NaN coordinate. *)
Definition no_NaN (pnt : P2) : Prop := pnt.1 <> NaN /\ pnt.2 <> NaN.

(** [sub] occurs in [s]: some text, then [sub], then some text. *)
Definition contains (s sub : string) : Prop :=
exists pre post : string, s = pre +:+ sub +:+ post.

(** A [TestFile] and a [Test] with the same properties. *)
Definition same_fields (t : Loader.TestFile) (u : Part000.Test) : Prop :=
Loader.points t = Part000.points u /\
Loader.edges t = Part000.edges u /\
Loader.source t = Part000.source u /\
Loader.error t = Part000.error u /\
Loader.name t = Part000.name u /\
Loader.extent t = Part000.extent u.

(** Two computations that return related values or throw the same exception. *)
Inductive same_outcome {A B} (R : A -> B -> Prop) : result A -> result B -> Prop :=
| both_return (a : A) (b : B) : R a b -> same_outcome R (Ok a) (Ok b)
| both_throw (e : exn) : same_outcome R (Throw e) (Throw e).

(** ** Sample inputs *)

Module Sample.

Definition pt (x y : Z) : P2 := (Fin (inject_Z x), Fin (inject_Z y)).

(** A stand-in for [Number::toString]: the special values as the engine
    prints them, a finite value as its reduced fraction. *)
Definition show_pos (p : positive) : string :=
String.string_of_list_ascii
  (map (fun d => ascii_of_nat (48 + d))
       ((fix digits (fuel : nat) (n : N) (acc : list nat) : list nat :=
           match fuel with
           | O => acc
           | S fuel' =>
               let acc' := N.to_nat (n mod 10) :: acc in
               if (n / 10 =? 0)%N then acc' else digits fuel' (n / 10)%N acc'
           end) (Pos.size_nat p) (Npos p) [])).

Definition show_Z (z : Z) : string :=
match z with
| Z0 => "0"
| Zpos p => show_pos p
| Zneg p => "-" +:+ show_pos p
end.

Definition toString (a : number) : string :=
match a with
| NaN => "NaN"
| Infinity => "Infinity"
| NegInfinity => "-Infinity"
| Fin q =>
    let r := Qred q in
    if (Qden r =? 1)%positive then show_Z (Qnum r)
    else show_Z (Qnum r) +:+ "/" +:+ show_pos (Qden r)
end.

(** The fixture [square.json] of the specification. *)
Definition square : fixture :=
{| json_points := Some [pt 0 0; pt 1 0; pt 1 1; pt 0 1];
   json_edges := Some [pt 0 2];
   json_source := None;
   json_error := None |}.

(** A fixture with a repeated point. *)
Definition repeated : fixture :=
{| json_points := Some [pt 0 0; pt 0 0; pt 1 1];
   json_edges := Some [pt 0 2];
   json_source := Some (str "hand-made");
   json_error := None |}.

(** A fixture expected to fail, one whose [error] is the empty string, and
    one with no [edges]. *)
Definition failing : fixture :=
{| json_points := Some [pt 0 0; pt 1 1];
   json_edges := Some [pt 0 1];
   json_source := None;
   json_error := Some (str "Edge intersects already constrained edge") |}.

Definition empty_error : fixture :=
{| json_points := Some [pt 0 0; pt 1 1];
   json_edges := Some [pt 0 1];
   json_source := None;
   json_error := Some (str "") |}.

Definition without_edges : fixture :=
{| json_points := Some [pt 0 0; pt 1 1];
   json_edges := None;
   json_source := None;
   json_error := None |}.

(** The directory of the module, with its fixtures. *)
Definition fs : dirent :=
Directory ""
  [File "loader.mjs" None;
   Directory "files"
     [File "empty-error.json" (Some (Parses (JObject empty_error)));
      Directory "simple"
        [File "square.json" (Some (Parses (JObject square)));
         File "failing.json" (Some (Parses (JObject failing)))];
      Special "link";
      Directory "dups" [File "repeated.json" (Some (Parses (JObject repeated)))]]].

(** A file system in which one fixture is not JSON. *)
Definition broken : dirent :=
Directory ""
  [Directory "files"
     [File "square.json" (Some (Parses (JObject square)));
      File "bad.json" (Some Malformed)]].



(** A store with the points of [repeated] and the array that holds them. *)
Definition store : Store.store :=
<[4%positive := Store.Array [1; 2; 3]%positive]>
  (<[3%positive := Store.Pair (Fin 1) (Fin 1)]>
     (<[2%positive := Store.Pair (Fin 0) (Fin 0)]>
        (<[1%positive := Store.Pair (Fin 0) (Fin 0)]> ∅))).

End Sample.

(** ** Auxiliary definitions for the further properties *)

(** The object [{minX, minY, maxX, maxY}] that bounds two extents. *)
Definition merge_extent (e1 e2 : Extent) : Extent :=
{| minX := Math_min (minX e1) (minX e2);
   minY := Math_min (minY e1) (minY e2);
   maxX := Math_max (maxX e1) (maxX e2);
   maxY := Math_max (maxY e1) (maxY e2) |}.

(** Two extents with [===] bounds, two points with [===] coordinates. *)
Definition extent_eq (e1 e2 : Extent) : Prop :=
num_eq (minX e1) (minX e2) /\ num_eq (minY e1) (minY e2) /\
num_eq (maxX e1) (maxX e2) /\ num_eq (maxY e1) (maxY e2).

Definition point_eq (p q : P2) : Prop := num_eq p.1 q.1 /\ num_eq p.2 q.2.

(** Two records that agree on every property but [points], the second holding
    the de-duplicated points of the first. *)
Definition deduped_of (Number_toString : number -> string)
    (t u : Loader.TestFile) : Prop :=
(exists pts, Loader.points t = Some pts /\
             Loader.points u = Some (Loader.dedupePoints Number_toString pts)) /\
Loader.edges t = Loader.edges u /\
Loader.source t = Loader.source u /\
Loader.error t = Loader.error u /\
Loader.name t = Loader.name u /\
Loader.extent t = Loader.extent u.

(** A line [dup n] with [n] not negative. *)
Definition dup_line (l : string * Z) : Prop := l.1 = "dup" /\ (0 <= l.2)%Z.

(** * Properties *)

(** ** Numbers *)

Lemma num_leb_refl (a : number) : a <> NaN -> num_leb a a = true.
Proof.
  destruct a; simpl; try congruence; intros _.
  apply Qle_bool_iff, Qle_refl.
Qed.

Lemma num_leb_trans (a b c : number) :
  num_leb a b = true -> num_leb b c = true -> num_leb a c = true.
Proof.
  destruct a, b, c; simpl; try congruence.
  rewrite !Qle_bool_iff. apply Qle_trans.
Qed.

Lemma num_leb_total (a b : number) :
  a <> NaN -> b <> NaN -> num_leb a b = false -> num_leb b a = true.
Proof.
  destruct a, b; simpl; try congruence; intros _ _ H.
  apply Qle_bool_iff. apply Qlt_le_weak, Qnot_le_lt.
  intros Hle. apply Qle_bool_iff in Hle. congruence.
Qed.

Lemma num_leb_Infinity (a : number) : num_leb Infinity a = true -> a = Infinity.
Proof. destruct a; simpl; congruence. Qed.

Lemma num_leb_NegInfinity (a : number) : num_leb a NegInfinity = true -> a = NegInfinity.
Proof. destruct a; simpl; congruence. Qed.

Lemma Math_min_cases (a b : number) :
  a <> NaN -> b <> NaN ->
  (Math_min a b = a /\ num_leb a b = true) \/ (Math_min a b = b /\ num_leb b a = true).
Proof.
  intros Ha Hb. unfold Math_min.
  destruct a, b; try congruence; simpl;
    try (left; split; [reflexivity | reflexivity]);
    try (right; split; [reflexivity | reflexivity]).
  destruct (Qle_bool q q0) eqn:E; [left | right]; split; try reflexivity.
  apply (num_leb_total (Fin q) (Fin q0)); simpl; congruence.
Qed.

Lemma Math_max_cases (a b : number) :
  a <> NaN -> b <> NaN ->
  (Math_max a b = a /\ num_leb b a = true) \/ (Math_max a b = b /\ num_leb a b = true).
Proof.
  intros Ha Hb. unfold Math_max.
  destruct a, b; try congruence; simpl;
    try (left; split; [reflexivity | reflexivity]);
    try (right; split; [reflexivity | reflexivity]).
  destruct (Qle_bool q0 q) eqn:E; [left | right]; split; try reflexivity.
  apply (num_leb_total (Fin q0) (Fin q)); simpl; congruence.
Qed.

(** The running minimum of a loop [m = Math.min(m, x)]. *)
Lemma fold_min_spec (xs : list number) (a : number) :
  a <> NaN -> Forall (fun x => x <> NaN) xs ->
  let m := fold_left Math_min xs a in
  m <> NaN /\ num_le m a /\ Forall (num_le m) xs /\ (m = a \/ m ∈ xs).
Proof.
  revert a. induction xs as [|x xs IH]; intros a Ha Hxs; simpl.
  - split; [exact Ha|]. split; [apply num_leb_refl, Ha|]. split; [constructor|now left].
  - inversion Hxs as [|? ? Hx Hxs']; subst.
    destruct (Math_min_cases a x Ha Hx) as [[E L]|[E L]]; rewrite E.
    + destruct (IH a Ha Hxs') as (N & La & Lxs & At).
      split; [exact N|]. split; [exact La|]. split.
      * constructor; [|exact Lxs]. unfold num_le in *. eapply num_leb_trans; eauto.
      * destruct At as [->|In]; [left; reflexivity | right; now apply list_elem_of_further].
    + destruct (IH x Hx Hxs') as (N & La & Lxs & At).
      split; [exact N|]. split; [|split].
      * unfold num_le in *. eapply num_leb_trans; eauto.
      * constructor; [exact La|exact Lxs].
      * right. destruct At as [->|In]; [apply list_elem_of_here | now apply list_elem_of_further].
Qed.

(** The running maximum of a loop [m = Math.max(m, x)]. *)
Lemma fold_max_spec (xs : list number) (a : number) :
  a <> NaN -> Forall (fun x => x <> NaN) xs ->
  let m := fold_left Math_max xs a in
  m <> NaN /\ num_le a m /\ Forall (fun x => num_le x m) xs /\ (m = a \/ m ∈ xs).
Proof.
  revert a. induction xs as [|x xs IH]; intros a Ha Hxs; simpl.
  - split; [exact Ha|]. split; [apply num_leb_refl, Ha|]. split; [constructor|now left].
  - inversion Hxs as [|? ? Hx Hxs']; subst.
    destruct (Math_max_cases a x Ha Hx) as [[E L]|[E L]]; rewrite E.
    + destruct (IH a Ha Hxs') as (N & La & Lxs & At).
      split; [exact N|]. split; [exact La|]. split.
      * constructor; [|exact Lxs]. unfold num_le in *. eapply num_leb_trans; eauto.
      * destruct At as [->|In]; [left; reflexivity | right; now apply list_elem_of_further].
    + destruct (IH x Hx Hxs') as (N & La & Lxs & At).
      split; [exact N|]. split; [|split].
      * unfold num_le in *. eapply num_leb_trans; eauto.
      * constructor; [exact La|exact Lxs].
      * right. destruct At as [->|In]; [apply list_elem_of_here | now apply list_elem_of_further].
Qed.

(** ** pointsExtent *)

(** The four bounds are four independent running minima and maxima. *)
Lemma pointsExtent_fold (points : list P2) (bnd : Extent) :
  fold_left Loader.extent_step points bnd =
  {| minX := fold_left Math_min points.*1 (minX bnd);
     minY := fold_left Math_min points.*2 (minY bnd);
     maxX := fold_left Math_max points.*1 (maxX bnd);
     maxY := fold_left Math_max points.*2 (maxY bnd) |}.
Proof.
  revert bnd. induction points as [|[x y] points IH]; intros bnd.
  - destruct bnd; reflexivity.
  - simpl. rewrite IH. reflexivity.
Qed.

Lemma no_NaN_coordinates (points : list P2) :
  Forall no_NaN points ->
  Forall (fun x => x <> NaN) points.*1 /\ Forall (fun y => y <> NaN) points.*2.
Proof.
  induction 1 as [|p points [Hx Hy] _ [IHx IHy]]; simpl.
  - split; constructor.
  - split; constructor; assumption.
Qed.

(** A bound that is still the initial infinity is attained all the same: every
    coordinate then is that infinity. *)
Lemma attained_or_initial (xs : list number) (m init : number) :
  xs <> [] -> (forall x, x ∈ xs -> m = init -> x = init) ->
  m = init \/ m ∈ xs -> m ∈ xs.
Proof.
  intros Hne Hall [E|In]; [|exact In].
  destruct xs as [|x xs]; [congruence|].
  pose proof (Hall x (list_elem_of_here _ _) E) as Hx.
  rewrite E, <- Hx. apply list_elem_of_here.
Qed.

(** The minimum the loop computes from [Infinity] over a non-empty list is
    below every element and is one of them. *)
Lemma running_min_attained (xs : list number) :
  xs <> [] -> Forall (fun x => x <> NaN) xs ->
  Forall (num_le (fold_left Math_min xs Infinity)) xs /\
  fold_left Math_min xs Infinity ∈ xs.
Proof.
  intros Hne Hxs.
  destruct (fold_min_spec xs Infinity ltac:(discriminate) Hxs) as (_ & _ & L & A).
  split; [exact L|].
  apply attained_or_initial in A; [exact A | exact Hne |].
  intros x Hx E. rewrite Forall_forall in L. specialize (L x Hx).
  unfold num_le in L. rewrite E in L. now apply num_leb_Infinity.
Qed.

(** The maximum the loop computes from [-Infinity]. *)
Lemma running_max_attained (xs : list number) :
  xs <> [] -> Forall (fun x => x <> NaN) xs ->
  Forall (fun x => num_le x (fold_left Math_max xs NegInfinity)) xs /\
  fold_left Math_max xs NegInfinity ∈ xs.
Proof.
  intros Hne Hxs.
  destruct (fold_max_spec xs NegInfinity ltac:(discriminate) Hxs) as (_ & _ & U & B).
  split; [exact U|].
  apply attained_or_initial in B; [exact B | exact Hne |].
  intros x Hx E. rewrite Forall_forall in U. specialize (U x Hx).
  unfold num_le in U. rewrite E in U. now apply num_leb_NegInfinity.
Qed.

(** C7: [pointsExtent] of the empty sequence is the sentinel with
    [minX = minY = +Infinity] and [maxX = maxY = -Infinity]; the function is
    total, it returns this object and raises nothing.  The sentinel is
    inverted: its maxima are below its minima.  In both copies. *)
Theorem pointsExtent_empty :
  Loader.pointsExtent [] =
    {| minX := Infinity; minY := Infinity; maxX := NegInfinity; maxY := NegInfinity |} /\
  Part000.pointsExtent [] = Loader.pointsExtent [] /\
  num_ltb (maxX (Loader.pointsExtent [])) (minX (Loader.pointsExtent [])) = true /\
  num_ltb (maxY (Loader.pointsExtent [])) (minY (Loader.pointsExtent [])) = true.
Proof.
  unfold Loader.pointsExtent, Part000.pointsExtent. cbn [fold_left num_neg].
  repeat split.
Qed.

(** C6: for a non-empty sequence of points (pairs of real numbers, or
    infinities: no coordinate is NaN), [minX] and [minY] of [pointsExtent] are
    below every x and every y, [maxX] and [maxY] are above them, and each of
    the four bounds is the corresponding coordinate of some point of the
    sequence. *)
Theorem pointsExtent_bounds_attained (P : list P2) :
  P <> [] -> Forall no_NaN P ->
  let e := Loader.pointsExtent P in
  Forall (fun p => num_le (minX e) p.1 /\ num_le p.1 (maxX e) /\
                   num_le (minY e) p.2 /\ num_le p.2 (maxY e)) P /\
  (exists p, p ∈ P /\ p.1 = minX e) /\
  (exists p, p ∈ P /\ p.2 = minY e) /\
  (exists p, p ∈ P /\ p.1 = maxX e) /\
  (exists p, p ∈ P /\ p.2 = maxY e).
Proof.
  intros Hne HP e.
  destruct (no_NaN_coordinates P HP) as [Hxs Hys].
  assert (Ex : P.*1 <> []) by (destruct P; [congruence | discriminate]).
  assert (Ey : P.*2 <> []) by (destruct P; [congruence | discriminate]).
  subst e. unfold Loader.pointsExtent. rewrite pointsExtent_fold. simpl.
  destruct (running_min_attained P.*1 Ex Hxs) as [Lx Ax].
  destruct (running_min_attained P.*2 Ey Hys) as [Ly Ay].
  destruct (running_max_attained P.*1 Ex Hxs) as [Ux Bx].
  destruct (running_max_attained P.*2 Ey Hys) as [Uy By].
  rewrite Forall_fmap in Lx, Ly, Ux, Uy.
  apply list_elem_of_fmap in Ax as (pa & Ea & Ha).
  apply list_elem_of_fmap in Ay as (pb & Eb & Hb).
  apply list_elem_of_fmap in Bx as (pc & Ec & Hc).
  apply list_elem_of_fmap in By as (pd & Ed & Hd).
  split; [|split; [|split; [|split]]]; eauto.
  rewrite Forall_forall in *. intros p Hp.
  specialize (Lx p Hp). specialize (Ly p Hp).
  specialize (Ux p Hp). specialize (Uy p Hp). simpl in *. tauto.
Qed.

(** ** dedupePoints *)

Section FirstBy.

Context {A : Type} (key : A -> string).

Lemma first_by_fold (l : list A) (seen : gset string) (ret : list A) :
  fold_left (first_by_step key) l (seen, ret) =
  (seen ∪ list_to_set (key <$> l), ret ++ keep_first key seen l).
Proof.
  revert seen ret. induction l as [|a l IH]; intros seen ret; simpl.
  - f_equal; [set_solver | now rewrite app_nil_r].
  - unfold first_by_step at 2. simpl. case_bool_decide as Hin.
    + rewrite IH. f_equal. set_solver.
    + rewrite IH. f_equal; [set_solver | now rewrite <- app_assoc].
Qed.

Lemma first_by_keep_first (l : list A) : first_by key l = keep_first key ∅ l.
Proof. unfold first_by. now rewrite first_by_fold. Qed.

Lemma keep_first_sublist (l : list A) (seen : gset string) :
  sublist (keep_first key seen l) l.
Proof.
  revert seen. induction l as [|a l IH]; intros seen; simpl.
  - constructor.
  - case_bool_decide; [apply sublist_cons | apply sublist_skip]; apply IH.
Qed.

Lemma keep_first_unseen (l : list A) (seen : gset string) (a : A) :
  a ∈ keep_first key seen l -> key a ∉ seen.
Proof.
  revert seen. induction l as [|b l IH]; intros seen; simpl.
  - intros H. inversion H.
  - case_bool_decide as Hin.
    + apply IH.
    + rewrite elem_of_cons. intros [->|H]; [exact Hin|].
      apply IH in H. set_solver.
Qed.

Lemma keep_first_NoDup (l : list A) (seen : gset string) :
  NoDup (key <$> keep_first key seen l).
Proof.
  revert seen. induction l as [|a l IH]; intros seen; simpl.
  - constructor.
  - case_bool_decide as Hin; [apply IH|].
    simpl. constructor; [|apply IH].
    rewrite list_elem_of_fmap. intros (b & E & Hb).
    apply keep_first_unseen in Hb. set_solver.
Qed.

(** An element the loop keeps stands in the input with no equal key before
    it. *)
Lemma keep_first_is_first (l : list A) (seen : gset string) (a : A) :
  a ∈ keep_first key seen l ->
  exists l1 l2, l = l1 ++ a :: l2 /\ key a ∉ key <$> l1.
Proof.
  revert seen. induction l as [|b l IH]; intros seen; simpl.
  - intros H. inversion H.
  - case_bool_decide as Hin.
    + intros H. pose proof (keep_first_unseen _ _ _ H) as Hu.
      destruct (IH _ H) as (l1 & l2 & -> & Hn).
      exists (b :: l1), l2. split; [reflexivity|].
      simpl. rewrite not_elem_of_cons. split; [|exact Hn]. congruence.
    + rewrite elem_of_cons. intros [->|H].
      * exists [], l. split; [reflexivity|]. simpl. apply not_elem_of_nil.
      * pose proof (keep_first_unseen _ _ _ H) as Hu.
        destruct (IH _ H) as (l1 & l2 & -> & Hn).
        exists (b :: l1), l2. split; [reflexivity|].
        simpl. rewrite not_elem_of_cons. split; [|exact Hn]. set_solver.
Qed.

(** Every key of the input is seen already or is the key of a kept element. *)
Lemma keep_first_covers (l : list A) (seen : gset string) (a : A) :
  a ∈ l -> key a ∈ seen \/ exists b, b ∈ keep_first key seen l /\ key b = key a.
Proof.
  revert seen. induction l as [|b l IH]; intros seen; simpl.
  - intros H. inversion H.
  - rewrite elem_of_cons. case_bool_decide as Hin.
    + intros [->|H]; [left; exact Hin | apply IH, H].
    + intros [->|H].
      * right. exists b. split; [apply list_elem_of_here | reflexivity].
      * destruct (IH ({[key b]} ∪ seen) H) as [Hs|(c & Hc & E)].
        -- apply elem_of_union in Hs as [Hs|Hs]; [|left; exact Hs].
           apply elem_of_singleton in Hs.
           right. exists b. split; [apply list_elem_of_here | congruence].
        -- right. exists c. split; [now apply list_elem_of_further | exact E].
Qed.

(** The loop keeps a list whose keys are distinct and unseen as it is. *)
Lemma keep_first_id (l : list A) (seen : gset string) :
  NoDup (key <$> l) -> (forall a, a ∈ l -> key a ∉ seen) ->
  keep_first key seen l = l.
Proof.
  revert seen. induction l as [|a l IH]; intros seen Hnd Hun; simpl; [reflexivity|].
  simpl in Hnd. apply NoDup_cons in Hnd as [Hna Hnd].
  rewrite bool_decide_eq_false_2 by (apply Hun, list_elem_of_here).
  f_equal. apply IH; [exact Hnd|].
  intros b Hb. apply not_elem_of_union. split.
  - rewrite elem_of_singleton. intros E. apply Hna.
    rewrite <- E. apply list_elem_of_fmap. exists b. split; [reflexivity | exact Hb].
  - apply Hun. now apply list_elem_of_further.
Qed.

Lemma keep_first_idempotent (l : list A) :
  keep_first key ∅ (keep_first key ∅ l) = keep_first key ∅ l.
Proof.
  apply keep_first_id; [apply keep_first_NoDup|].
  intros a _. apply not_elem_of_empty.
Qed.

End FirstBy.

(** Two lists related element by element, with equal keys, are filtered
    alike. *)
Lemma keep_first_Forall2 {A B} (R : A -> B -> Prop) (keyA : A -> string)
    (keyB : B -> string) (l : list A) (k : list B) (seen : gset string) :
  (forall a b, R a b -> keyA a = keyB b) ->
  Forall2 R l k ->
  Forall2 R (keep_first keyA seen l) (keep_first keyB seen k).
Proof.
  intros HR H. revert seen. induction H as [|a b l k Hab _ IH]; intros seen; simpl.
  - constructor.
  - rewrite (HR a b Hab). case_bool_decide; [apply IH|]. constructor; [exact Hab | apply IH].
Qed.

Lemma keep_first_ext {A} (key key' : A -> string) (l : list A) (seen : gset string) :
  (forall a, a ∈ l -> key a = key' a) ->
  keep_first key seen l = keep_first key' seen l.
Proof.
  revert seen. induction l as [|a l IH]; intros seen H; simpl; [reflexivity|].
  rewrite <- (H a (list_elem_of_here _ _)).
  case_bool_decide.
  - apply IH. intros b Hb. apply H. now apply list_elem_of_further.
  - f_equal. apply IH. intros b Hb. apply H. now apply list_elem_of_further.
Qed.

Section Dedupe.

Variable Number_toString : number -> string.

Abbreviation key := (point_key Number_toString).

Lemma Loader_dedupe_step (st : gset string * list P2) (pnt : P2) :
  Loader.dedupe_step Number_toString st pnt = first_by_step key st pnt.
Proof. destruct st as [seen ret], pnt as [x y]. reflexivity. Qed.

Lemma Part000_dedupe_step (st : gset string * list P2) (pnt : P2) :
  Part000.dedupe_step Number_toString st pnt = first_by_step key st pnt.
Proof. destruct st as [seen ret], pnt as [x y]. reflexivity. Qed.

Lemma fold_left_pointwise {S E} (f g : S -> E -> S) (l : list E) (s : S) :
  (forall s e, f s e = g s e) -> fold_left f l s = fold_left g l s.
Proof.
  intros H. revert s. induction l as [|e l IH]; intros s; simpl; [reflexivity|].
  now rewrite H, IH.
Qed.

(** The loop of [dedupePoints] keeps the first point of each key. *)
Lemma Loader_dedupePoints_keep_first (points : list P2) :
  Loader.dedupePoints Number_toString points = keep_first key ∅ points.
Proof.
  unfold Loader.dedupePoints.
  rewrite (fold_left_pointwise _ (first_by_step key)) by apply Loader_dedupe_step.
  now rewrite first_by_fold.
Qed.

(** The second copy returns the same array and writes the number of points
    dropped. *)
Lemma Part000_dedupePoints_run (points : list P2) (out : console) :
  Part000.dedupePoints Number_toString points out =
  (Ok (keep_first key ∅ points),
   out ++ [("dup", Z.of_nat (length points) -
                   Z.of_nat (size (list_to_set (key <$> points) : gset string)))%Z]).
Proof.
  unfold Part000.dedupePoints.
  rewrite (fold_left_pointwise _ (first_by_step key)) by apply Part000_dedupe_step.
  rewrite first_by_fold. cbn.
  replace (∅ ∪ list_to_set (key <$> points) : gset string)
    with (list_to_set (key <$> points) : gset string) by set_solver.
  reflexivity.
Qed.

(** The loop on the store: with [ret] holding [acc] and every element still
    to visit a point, the loop ends, and its only write is the array at
    [ret]. *)
Lemma dedupe_loop_run (ret : Store.ref) (pnts : list Store.ref) :
  forall (seen : gset string) (h : Store.store) (acc : list Store.ref),
  h !! ret = Some (Store.Array acc) ->
  Forall (fun p => is_Some (Store.point_at h p)) pnts ->
  Store.dedupe_loop Number_toString ret pnts seen h =
  Ok (<[ret := Store.Array
          (acc ++ keep_first (Store.key_at Number_toString h) seen pnts)]> h).
Proof.
  induction pnts as [|p pnts IH]; intros seen h acc Hret Hp.
  - simpl. rewrite app_nil_r. f_equal. symmetry. now apply insert_id.
  - apply Forall_cons in Hp as [[v Hv] Hp].
    unfold Store.point_at in Hv.
    assert (Hne : p <> ret) by (intros ->; rewrite Hret in Hv; discriminate).
    destruct (h !! p) as [[x y|]|] eqn:Ep; try discriminate.
    assert (Hk : Store.key_at Number_toString h p =
                 "" +:+ Number_toString x +:+ "," +:+ Number_toString y)
      by (unfold Store.key_at; now rewrite Ep).
    cbn [Store.dedupe_loop keep_first].
    unfold Store.read_pair. rewrite Ep. cbn [mbind result_bind].
    rewrite <- Hk.
    case_bool_decide as Hin.
    + now apply IH.
    + unfold Store.push. rewrite Hret.
      set (h1 := <[ret := Store.Array (acc ++ [p])]> h).
      rewrite (IH _ h1 (acc ++ [p])).
      * unfold h1. rewrite insert_insert_eq. f_equal. f_equal. f_equal.
        rewrite <- app_assoc. simpl. f_equal. f_equal.
        apply keep_first_ext. intros q Hq.
        rewrite Forall_forall in Hp. destruct (Hp q Hq) as [w Hw].
        unfold Store.point_at in Hw. unfold Store.key_at.
        assert (q <> ret) by (intros ->; rewrite Hret in Hw; discriminate).
        now rewrite lookup_insert_ne.
      * unfold h1. apply lookup_insert_eq.
      * rewrite Forall_forall in *. intros q Hq. destruct (Hp q Hq) as [w Hw].
        unfold Store.point_at in *.
        assert (q <> ret) by (intros ->; rewrite Hret in Hw; discriminate).
        unfold h1. rewrite lookup_insert_ne by congruence. eauto.
Qed.

End Dedupe.

(** C8: [dedupePoints] on the store.  Called on an array [points] of (references
    to) points, it returns a new array [ret] and writes nothing else: the
    array [points] and every object that existed are as they were.  The
    elements [rs] of the new array are a subsequence of those of [points], in
    the same order; no two of them have the same coordinate key; each of them
    is the first element of [points] with its key (the reference pushed is
    that of the first occurrence); every key of [points] is the key of one
    of them.  The points they denote are those the function computes on the
    values, and the second copy of the module returns the same. *)
Theorem dedupePoints_keeps_first_occurrences
    (Number_toString : number -> string) (h : Store.store) (points : Store.ref)
    (ps : list Store.ref) (vs : list P2) :
  h !! points = Some (Store.Array ps) ->
  Forall2 (fun p v => Store.point_at h p = Some v) ps vs ->
  exists (ret : Store.ref) (rs : list Store.ref) (h' : Store.store),
    Store.dedupePoints Number_toString points h = Ok (ret, h') /\
    h !! ret = None /\
    h' = <[ret := Store.Array rs]> h /\
    h' !! points = Some (Store.Array ps) /\
    (forall l o, h !! l = Some o -> h' !! l = Some o) /\
    sublist rs ps /\
    NoDup (Store.key_at Number_toString h <$> rs) /\
    (forall p, p ∈ rs ->
       exists l1 l2, ps = l1 ++ p :: l2 /\
         Store.key_at Number_toString h p ∉ Store.key_at Number_toString h <$> l1) /\
    (forall q, q ∈ ps ->
       exists p, p ∈ rs /\
         Store.key_at Number_toString h p = Store.key_at Number_toString h q) /\
    Forall2 (fun p v => Store.point_at h p = Some v) rs
      (Loader.dedupePoints Number_toString vs) /\
    (forall out, (Part000.dedupePoints Number_toString vs out).1 =
                 Ok (Loader.dedupePoints Number_toString vs)).
Proof.
  intros Hpoints Hvs.
  set (ret := fresh (dom h)).
  assert (Hfresh : h !! ret = None) by (apply not_elem_of_dom, is_fresh).
  assert (Hne : points <> ret) by (intros E; rewrite E in Hpoints; congruence).
  set (h0 := <[ret := Store.Array []]> h).
  assert (Hps0 : Forall (fun p => is_Some (Store.point_at h0 p)) ps).
  { clear -Hvs Hfresh. induction Hvs as [|p v ps vs Hp _ IH]; constructor; [|exact IH].
    unfold Store.point_at in *. unfold h0.
    assert (p <> ret) by (intros E; rewrite E, Hfresh in Hp; discriminate).
    rewrite lookup_insert_ne by congruence. eauto. }
  assert (Hkey : forall p, p ∈ ps ->
             Store.key_at Number_toString h0 p = Store.key_at Number_toString h p).
  { intros p Hp. rewrite Forall_forall in Hps0. destruct (Hps0 p Hp) as [w Hw].
    unfold Store.point_at in Hw. unfold Store.key_at.
    assert (p <> ret) by (intros E; unfold h0 in Hw; rewrite E, lookup_insert_eq in Hw; discriminate).
    unfold h0. now rewrite lookup_insert_ne by congruence. }
  exists ret, (keep_first (Store.key_at Number_toString h) ∅ ps).
  exists (<[ret := Store.Array (keep_first (Store.key_at Number_toString h) ∅ ps)]> h).
  split; [|split; [exact Hfresh|split; [reflexivity|split; [|split]]]].
  - unfold Store.dedupePoints. fold ret. fold h0.
    unfold Store.read_array.
    replace (h0 !! points) with (Some (Store.Array ps))
      by (unfold h0; rewrite lookup_insert_ne by congruence; now rewrite Hpoints).
    cbn [mbind result_bind].
    rewrite (dedupe_loop_run Number_toString ret ps ∅ h0 [])
      by (first [apply lookup_insert_eq | exact Hps0]).
    cbn [mbind result_bind]. simpl. unfold h0. rewrite insert_insert_eq.
    f_equal. f_equal. f_equal. f_equal. apply keep_first_ext. exact Hkey.
  - rewrite lookup_insert_ne by congruence. exact Hpoints.
  - intros l o Hl. rewrite lookup_insert_ne; [exact Hl|]. intros E. rewrite <- E, Hfresh in Hl. discriminate.
  - split; [apply keep_first_sublist|].
    split; [apply keep_first_NoDup|].
    split; [intros p Hp; now apply (keep_first_is_first _ _ ∅)|].
    split.
    + intros q Hq. destruct (keep_first_covers (Store.key_at Number_toString h) ps ∅ q Hq)
        as [Hs|Hb]; [now apply not_elem_of_empty in Hs | exact Hb].
    + split.
      * rewrite Loader_dedupePoints_keep_first.
        apply keep_first_Forall2; [|exact Hvs].
        intros p [x y] Hp. unfold Store.point_at in Hp. unfold Store.key_at, point_key.
        destruct (h !! p) as [[x' y'|]|]; try discriminate. now inversion Hp.
      * intros out. rewrite Part000_dedupePoints_run, Loader_dedupePoints_keep_first.
        reflexivity.
Qed.

(** C9: [dedupePoints] is idempotent. *)
Theorem dedupePoints_idempotent (Number_toString : number -> string) (P : list P2) :
  Loader.dedupePoints Number_toString (Loader.dedupePoints Number_toString P) =
  Loader.dedupePoints Number_toString P.
Proof.
  rewrite !Loader_dedupePoints_keep_first. apply keep_first_idempotent.
Qed.

(** X1: on values, [dedupePoints] returns a subsequence of its argument whose
    keys are pairwise distinct; each point it keeps stands in the argument
    with no equal key before it; and every key of the argument is the key of
    a point it keeps. *)
Theorem dedupePoints_values (Number_toString : number -> string) (P : list P2) :
  sublist (Loader.dedupePoints Number_toString P) P /\
  NoDup (point_key Number_toString <$> Loader.dedupePoints Number_toString P) /\
  (forall p, p ∈ Loader.dedupePoints Number_toString P ->
     exists l1 l2, P = l1 ++ p :: l2 /\
       point_key Number_toString p ∉ point_key Number_toString <$> l1) /\
  (forall q, q ∈ P ->
     exists p, p ∈ Loader.dedupePoints Number_toString P /\
       point_key Number_toString p = point_key Number_toString q).
Proof.
  rewrite Loader_dedupePoints_keep_first.
  split; [apply keep_first_sublist|].
  split; [apply keep_first_NoDup|].
  split; [intros p Hp; now apply (keep_first_is_first _ _ ∅)|].
  intros q Hq. destruct (keep_first_covers (point_key Number_toString) P ∅ q Hq)
    as [Hs|Hb]; [now apply not_elem_of_empty in Hs | exact Hb].
Qed.

(** ** findTest *)

Lemma prefix_spec (sub s : string) :
  String.prefix sub s = true <-> exists post, s = sub +:+ post.
Proof.
  revert s. induction sub as [|a sub IH]; intros s.
  - destruct s; simpl; split; eauto.
  - destruct s as [|b s]; simpl.
    + split; [discriminate | intros [post H]; discriminate].
    + destruct (ascii_dec a b) as [->|N].
      * rewrite IH. split; intros [post H]; exists post; [now rewrite H | now inversion H].
      * split; [discriminate | intros [post H]; inversion H; congruence].
Qed.

(** [includes] decides the occurrence of a substring. *)
Lemma includes_spec (s sub : string) : includes s sub = true <-> contains s sub.
Proof.
  unfold contains. induction s as [|c s IH].
  - cbn [includes]. rewrite orb_false_r, prefix_spec. split.
    + intros [post H]. exists "", post. exact H.
    + intros (pre & post & H). destruct pre; [exists post; exact H | discriminate].
  - cbn [includes]. rewrite orb_true_iff, prefix_spec, IH. split.
    + intros [[post H]|(pre & post & H)].
      * exists "", post. exact H.
      * exists (String c pre), post. simpl. now rewrite H.
    + intros (pre & post & H). destruct pre as [|c' pre].
      * left. exists post. exact H.
      * right. simpl in H. inversion H. exists pre, post. reflexivity.
Qed.

Lemma includes_false (s sub : string) : includes s sub = false <-> ~ contains s sub.
Proof.
  rewrite <- includes_spec. destruct (includes s sub); split; congruence.
Qed.

(** [array.find(f)] returns the first element that satisfies [f]. *)
Lemma find_first {A} (f : A -> bool) (l : list A) (a : A) :
  List.find f l = Some a <->
  exists l1 l2, l = l1 ++ a :: l2 /\ f a = true /\ Forall (fun u => f u = false) l1.
Proof.
  induction l as [|b l IH]; simpl.
  - split; [discriminate | intros (l1 & l2 & H & _); destruct l1; discriminate].
  - destruct (f b) eqn:E.
    + split.
      * intros [= ->]. exists [], l. repeat split; [exact E | constructor].
      * intros (l1 & l2 & H & Ha & Hl1). destruct l1 as [|c l1]; simpl in H.
        -- now inversion H.
        -- inversion H; subst. apply Forall_cons in Hl1 as [Hc _]. congruence.
    + rewrite IH. split.
      * intros (l1 & l2 & -> & Ha & Hl1). exists (b :: l1), l2.
        repeat split; [exact Ha | constructor; assumption].
      * intros (l1 & l2 & H & Ha & Hl1). destruct l1 as [|c l1]; simpl in H.
        -- inversion H; subst. congruence.
        -- inversion H; subst. apply Forall_cons in Hl1 as [_ Hl1]. exists l1, l2. auto.
Qed.

Lemma find_nothing {A} (f : A -> bool) (l : list A) :
  List.find f l = None <-> Forall (fun u => f u = false) l.
Proof.
  induction l as [|b l IH]; simpl.
  - split; [constructor | reflexivity].
  - destruct (f b) eqn:E.
    + split; [discriminate | intros H; apply Forall_cons in H as [H _]; congruence].
    + rewrite IH. split; [intros H; constructor; assumption | intros H; now apply Forall_cons in H as [_ H]].
Qed.

(** C5: [findTest] returns the first record, in the order of the sequence,
    whose name contains the search string, and returns [undefined] ([None]),
    throwing nothing, exactly when no name contains it; in both copies. *)
Theorem findTest_first_match_or_undefined :
  (forall (tests : list Loader.TestFile) (search : string),
     (forall t, Loader.findTest tests search = Some t <->
        exists before after, tests = before ++ t :: after /\
          contains (Loader.name t) search /\
          Forall (fun u => ~ contains (Loader.name u) search) before) /\
     (Loader.findTest tests search = None <->
        Forall (fun u => ~ contains (Loader.name u) search) tests)) /\
  (forall (tests : list Part000.Test) (search : string),
     (forall t, Part000.findTest tests search = Some t <->
        exists before after, tests = before ++ t :: after /\
          contains (Part000.name t) search /\
          Forall (fun u => ~ contains (Part000.name u) search) before) /\
     (Part000.findTest tests search = None <->
        Forall (fun u => ~ contains (Part000.name u) search) tests)).
Proof.
  split; intros tests search; split.
  - intros t. unfold Loader.findTest. rewrite find_first.
    split; intros (l1 & l2 & H & Ht & Hl1); exists l1, l2; (split; [exact H|]).
    + split; [now apply includes_spec|]. eapply Forall_impl; [exact Hl1|].
      intros u Hu. now apply includes_false.
    + split; [now apply includes_spec|]. eapply Forall_impl; [exact Hl1|].
      intros u Hu. now apply includes_false.
  - unfold Loader.findTest. rewrite find_nothing.
    split; intros H; (eapply Forall_impl; [exact H|]); intros u Hu; now apply includes_false.
  - intros t. unfold Part000.findTest. rewrite find_first.
    split; intros (l1 & l2 & H & Ht & Hl1); exists l1, l2; (split; [exact H|]).
    + split; [now apply includes_spec|]. eapply Forall_impl; [exact Hl1|].
      intros u Hu. now apply includes_false.
    + split; [now apply includes_spec|]. eapply Forall_impl; [exact Hl1|].
      intros u Hu. now apply includes_false.
  - unfold Part000.findTest. rewrite find_nothing.
    split; intros H; (eapply Forall_impl; [exact H|]); intros u Hu; now apply includes_false.
Qed.

(** ** collectFiles *)

(** [collectFiles] as the source writes it: the files of the directory, then
    the concatenation of what it collects in each sub-directory. *)
Lemma collectFiles_at_unfold (dir : URL) (n : string) (ents : list dirent) :
  collectFiles_at dir (Directory n ents) =
  map (fun e => url_child dir (ent_name e)) (List.filter isFile ents) ++
  concat (map (fun d => collectFiles_at (url_child dir (ent_name d)) d)
              (List.filter isDirectory ents)).
Proof.
  cbn [collectFiles_at]. f_equal. f_equal.
  induction ents as [|e ents IH]; [reflexivity|].
  cbn [List.filter]. destruct (isDirectory e); [cbn [map]; now rewrite IH | exact IH].
Qed.

(** Only regular files are collected: an entry that is neither a file nor a
    directory is skipped. *)
Example collectFiles_sample :
  collectFiles Sample.fs (relapath "./files") =
  Ok [["files"; "empty-error.json"];
      ["files"; "simple"; "square.json"];
      ["files"; "simple"; "failing.json"];
      ["files"; "dups"; "repeated.json"]].
Proof. reflexivity. Qed.

(** ** The constructors *)

Section Records.

Variable Number_toString : number -> string.

(** With [points] present the constructor returns, and stores this. *)
Lemma TestFile_new_run (o : fixture) (pth : URL) (dedupe : bool) (pts : list P2) :
  json_points o = Some pts ->
  Loader.TestFile_new Number_toString (JObject o) pth dedupe =
  Ok {| Loader.points :=
          Some (if dedupe then Loader.dedupePoints Number_toString pts else pts);
        Loader.edges := json_edges o;
        Loader.source := default null (json_source o);
        Loader.error := default null (json_error o);
        Loader.name := replace_backslashes (path_relative (relapath "./files/") pth);
        Loader.extent := Loader.pointsExtent pts |}.
Proof. intros H. unfold Loader.TestFile_new. rewrite H. now destruct dedupe. Qed.

Lemma TestFile_new_no_points (o : fixture) (pth : URL) (dedupe : bool) :
  json_points o = None ->
  Loader.TestFile_new Number_toString (JObject o) pth dedupe = Throw TypeError.
Proof. intros H. unfold Loader.TestFile_new. rewrite H. now destruct dedupe. Qed.

Lemma Test_new_run (o : fixture) (pth : URL) (dedupe : bool) (pts : list P2) (out : console) :
  json_points o = Some pts ->
  exists lines,
  Part000.Test_new Number_toString (JObject o) pth dedupe out =
  (Ok {| Part000.points :=
           Some (if dedupe then Loader.dedupePoints Number_toString pts else pts);
         Part000.edges := json_edges o;
         Part000.source := default null (json_source o);
         Part000.error := default null (json_error o);
         Part000.name := replace_backslashes (path_relative (relapath "./files/") pth);
         Part000.extent := Loader.pointsExtent pts |},
   out ++ lines).
Proof.
  intros H. unfold Part000.Test_new. rewrite H. destruct dedupe.
  - eexists. unfold mbind, IO_bind, lift, iterate, mret, IO_ret.
    rewrite Part000_dedupePoints_run, Loader_dedupePoints_keep_first. reflexivity.
  - exists []. rewrite app_nil_r. reflexivity.
Qed.

Lemma Test_new_no_points (o : fixture) (pth : URL) (dedupe : bool) (out : console) :
  json_points o = None ->
  Part000.Test_new Number_toString (JObject o) pth dedupe out = (Throw TypeError, out).
Proof. intros H. unfold Part000.Test_new. rewrite H. now destruct dedupe. Qed.

End Records.

(** C3: a record is constructed from every fixture that has [points];
    whatever the flag [dedupe], its extent is [pointsExtent] of the points as
    the fixture gives them, and its edges are those of the fixture, as they
    are.  So the record built with [dedupe] and the one built without have
    the same extent and edges (and source, error and name): they differ at
    most in [points], which holds the de-duplicated sequence in the first and
    the sequence of the fixture in the second.  In both copies. *)
Theorem record_extent_and_edges_ignore_dedupe
    (Number_toString : number -> string) (o : fixture) (pth : URL) (pts : list P2) :
  json_points o = Some pts ->
  (exists plain deduped,
     Loader.TestFile_new Number_toString (JObject o) pth false = Ok plain /\
     Loader.TestFile_new Number_toString (JObject o) pth true = Ok deduped /\
     Loader.extent plain = Loader.pointsExtent pts /\
     Loader.extent deduped = Loader.pointsExtent pts /\
     Loader.edges plain = json_edges o /\
     Loader.edges deduped = json_edges o /\
     Loader.points plain = Some pts /\
     Loader.points deduped = Some (Loader.dedupePoints Number_toString pts) /\
     Loader.source plain = Loader.source deduped /\
     Loader.error plain = Loader.error deduped /\
     Loader.name plain = Loader.name deduped) /\
  (forall out, exists plain deduped out',
     Part000.Test_new Number_toString (JObject o) pth false out = (Ok plain, out) /\
     Part000.Test_new Number_toString (JObject o) pth true out = (Ok deduped, out') /\
     Part000.extent plain = Part000.pointsExtent pts /\
     Part000.extent deduped = Part000.pointsExtent pts /\
     Part000.edges plain = json_edges o /\
     Part000.edges deduped = json_edges o /\
     Part000.points plain = Some pts /\
     Part000.points deduped = Some (Loader.dedupePoints Number_toString pts) /\
     Part000.source plain = Part000.source deduped /\
     Part000.error plain = Part000.error deduped /\
     Part000.name plain = Part000.name deduped).
Proof.
  intros H. split.
  - eexists _, _.
    split; [apply (TestFile_new_run _ _ _ false _ H)|].
    split; [apply (TestFile_new_run _ _ _ true _ H)|].
    repeat split.
  - intros out.
    destruct (Test_new_run Number_toString o pth true pts out H) as [lines Ht].
    eexists _, _, _.
    split; [unfold Part000.Test_new; rewrite H; reflexivity|].
    split; [exact Ht|].
    repeat split.
Qed.

(** ** Loading *)

Lemma map_throwing_Ok {A B} (f : A -> result B) (l : list A) (bs : list B) :
  map_throwing f l = Ok bs <-> Forall2 (fun a b => f a = Ok b) l bs.
Proof.
  revert bs. induction l as [|a l IH]; intros bs; simpl.
  - split; [intros [= <-]; constructor | intros H; now inversion H].
  - unfold mbind, result_bind. destruct (f a) as [b|e] eqn:Ea.
    + destruct (map_throwing f l) as [bs'|e].
      * split.
        -- intros [= <-]. constructor; [exact Ea | now apply IH].
        -- intros H. inversion H as [|? b' ? bs'' Hb Hbs]; subst.
           apply IH in Hbs. congruence.
      * split; [discriminate|]. intros H. inversion H as [|? b' ? bs'' Hb Hbs]; subst.
        apply IH in Hbs. discriminate.
    + split; [discriminate|]. intros H. inversion H; subst. congruence.
Qed.

(** A file that fails to load makes the whole [map] throw. *)
Lemma map_throwing_throws {A B} (f : A -> result B) (l : list A) (a : A) :
  a ∈ l -> throws (f a) -> throws (map_throwing f l).
Proof.
  intros Hin Ha. induction l as [|b l IH]; [inversion Hin|].
  apply elem_of_cons in Hin as [<-|Hin]; simpl; unfold mbind, result_bind.
  - destruct Ha as [e ->]. now exists e.
  - destruct (f b) as [b'|e]; [|now exists e].
    destruct (IH Hin) as [e ->]. now exists e.
Qed.

Lemma falsy_spec (v : js_string) : falsy v = true <-> v = null \/ v = str "".
Proof.
  destruct v as [|s]; simpl.
  - split; auto.
  - rewrite String.eqb_eq. split; [intros ->; now right | intros [|[= ->]]; [discriminate | reflexivity]].
Qed.

Lemma filter_sublist {A} (f : A -> bool) (l : list A) : sublist (List.filter f l) l.
Proof.
  induction l as [|a l IH]; simpl; [constructor|].
  destruct (f a); [now apply sublist_skip | now apply sublist_cons].
Qed.

Lemma filter_all {A} (l : list A) : List.filter (fun _ => true) l = l.
Proof. induction l as [|a l IH]; simpl; [reflexivity | now rewrite IH]. Qed.

Lemma elem_of_filter {A} (f : A -> bool) (l : list A) (a : A) :
  a ∈ List.filter f l <-> a ∈ l /\ f a = true.
Proof. rewrite !list_elem_of_In. apply filter_In. Qed.

(** C2, as the code has it: loading a file throws when its text is not JSON
    (a SyntaxError of [JSON.parse]) and when the parsed value is [null] or
    has no [points] (a TypeError: [undefined] is not iterable), and a file
    that throws makes [loadTests] throw.  Nothing checks [edges]: with
    [points] present the constructor returns a record, whose [edges] is that
    of the fixture ([undefined] when the fixture has none) and whose [source]
    and [error] are those of the fixture, [null] when absent. *)
Theorem loading_fails_on_bad_text_or_missing_points (Number_toString : number -> string) :
  (forall fs pth dedupe, readFileSync fs pth = Ok Malformed ->
     Loader.loadFile Number_toString fs pth dedupe = Throw SyntaxError) /\
  (forall pth dedupe,
     Loader.TestFile_new Number_toString JNull pth dedupe = Throw TypeError) /\
  (forall o pth dedupe, json_points o = None ->
     Loader.TestFile_new Number_toString (JObject o) pth dedupe = Throw TypeError) /\
  (forall fs allowErrors dedupe files p,
     collectFiles fs (relapath "./files") = Ok files -> p ∈ files ->
     throws (Loader.loadFile Number_toString fs p (default false dedupe)) ->
     throws (Loader.loadTests Number_toString fs allowErrors dedupe)) /\
  (forall o pth dedupe pts, json_points o = Some pts ->
     exists t, Loader.TestFile_new Number_toString (JObject o) pth dedupe = Ok t /\
       Loader.edges t = json_edges o /\
       (json_source o = None -> Loader.source t = null) /\
       (json_error o = None -> Loader.error t = null) /\
       (forall v, json_source o = Some v -> Loader.source t = v) /\
       (forall v, json_error o = Some v -> Loader.error t = v)).
Proof.
  split; [|split; [|split; [|split]]].
  - intros fs pth dedupe H. unfold Loader.loadFile. now rewrite H.
  - reflexivity.
  - intros o pth dedupe H. now apply TestFile_new_no_points.
  - intros fs allowErrors dedupe files p Hfiles Hp Hthrow.
    unfold Loader.loadTests. rewrite Hfiles. cbn [mbind result_bind].
    destruct (map_throwing_throws
                (fun p => Loader.loadFile Number_toString fs p (default false dedupe))
                files p Hp Hthrow) as [e ->].
    now exists e.
  - intros o pth dedupe pts H.
    rewrite (TestFile_new_run Number_toString o pth dedupe pts H).
    eexists. split; [reflexivity|].
    simpl. split; [reflexivity|].
    split; [now intros ->|]. split; [now intros ->|].
    split; now intros v ->.
Qed.

(** C2 as stated fails: a fixture with [points] and no [edges] is not
    rejected.  The constructor returns a record whose [edges] is [undefined],
    and [loadTests] goes on. *)
Lemma missing_edges_not_rejected :
  json_edges Sample.without_edges = None /\
  forall Number_toString dedupe,
  exists t,
    Loader.TestFile_new Number_toString (JObject Sample.without_edges)
      ["files"; "without-edges.json"] dedupe = Ok t /\
    Loader.edges t = None.
Proof.
  split; [reflexivity|]. intros Number_toString dedupe.
  rewrite (TestFile_new_run Number_toString Sample.without_edges _ dedupe _ eq_refl).
  eexists. split; reflexivity.
Qed.

(** The filter of [loadTests], as the code has it.  [loadTests(true)]
    returns the record of every walked file, in the order of the walk.
    [loadTests(false)], and [loadTests()], return those of them whose [error]
    is falsy, in the same order: [null] or the empty string.  So a record
    whose [error] is a non-empty string is never returned, and one whose
    [error] is the empty string is.  When one throws, so does the other.  In
    both copies. *)
Theorem loadTests_keeps_falsy_errors
    (Number_toString : number -> string) (fs : dirent) (dedupe : option bool) :
  (forall all, Loader.loadTests Number_toString fs (Some true) dedupe = Ok all ->
     (exists files, collectFiles fs (relapath "./files") = Ok files /\
        Forall2 (fun p t =>
                   Loader.loadFile Number_toString fs p (default false dedupe) = Ok t)
                files all) /\
     exists kept,
       Loader.loadTests Number_toString fs (Some false) dedupe = Ok kept /\
       Loader.loadTests Number_toString fs None dedupe = Ok kept /\
       kept = List.filter (fun t => falsy (Loader.error t)) all /\
       sublist kept all /\
       (forall t, t ∈ kept <->
          t ∈ all /\ (Loader.error t = null \/ Loader.error t = str ""))) /\
  (forall e, Loader.loadTests Number_toString fs (Some true) dedupe = Throw e <->
             Loader.loadTests Number_toString fs (Some false) dedupe = Throw e) /\
  (forall out all out',
     Part000.loadTests Number_toString fs (Some true) dedupe out = (Ok all, out') ->
     exists kept,
       Part000.loadTests Number_toString fs (Some false) dedupe out = (Ok kept, out') /\
       Part000.loadTests Number_toString fs None dedupe out = (Ok kept, out') /\
       kept = List.filter (fun t => falsy (Part000.error t)) all /\
       sublist kept all /\
       (forall t, t ∈ kept <->
          t ∈ all /\ (Part000.error t = null \/ Part000.error t = str ""))).
Proof.
  split; [|split].
  - intros all. unfold Loader.loadTests.
    destruct (collectFiles fs (relapath "./files")) as [files|e]; [|discriminate].
    cbn [mbind result_bind default].
    destruct (map_throwing _ files) as [ret|e] eqn:Eret; [|discriminate].
    cbn. rewrite filter_all. intros [= <-].
    split.
    + exists files. split; [reflexivity|]. now apply map_throwing_Ok.
    + eexists. split; [reflexivity|]. split; [reflexivity|]. split; [reflexivity|].
      split; [apply filter_sublist|].
      intros t. rewrite elem_of_filter, falsy_spec. reflexivity.
  - intros e. unfold Loader.loadTests.
    destruct (collectFiles fs (relapath "./files")) as [files|e']; [|reflexivity].
    cbn [mbind result_bind default].
    destruct (map_throwing _ files) as [ret|e'']; [|reflexivity].
    split; discriminate.
  - intros out all out'. unfold Part000.loadTests, mbind, IO_bind, lift, mret, IO_ret.
    destruct (collectFiles fs (relapath "./files")) as [files|e]; [|discriminate].
    cbn [default].
    destruct (map_IO _ files out) as [[ret|e] out''] eqn:Eret; [|discriminate].
    cbn. rewrite filter_all. intros [= <- <-].
    eexists. split; [reflexivity|]. split; [reflexivity|]. split; [reflexivity|].
    split; [apply filter_sublist|].
    intros t. rewrite elem_of_filter, falsy_spec. reflexivity.
Qed.

(** C1 fails on the code at this input: [loadTests(false)] returns the
    record of the fixture [empty-error.json], whose [error] is present and is
    the empty string, a string and not [null].  The documentation of the
    constructor ([error]: if present, the error message expected) and of
    [loadTests] (all the test files except the ones that should cause an
    error) excludes it; the test [!test.error] lets it pass. *)
Lemma loadTests_returns_empty_error :
  exists t kept,
    (forall Number_toString,
       Loader.loadTests Number_toString Sample.fs (Some false) None = Ok kept) /\
    t ∈ kept /\
    Loader.error t = str "" /\
    Loader.error t <> null.
Proof.
  eexists _, _. split; [intros Number_toString; vm_compute; reflexivity|].
  split; [apply list_elem_of_here|]. split; [reflexivity | discriminate].
Qed.

(** The fixture [square.json] of the specification: its name is its path below
    [files], its extent is the unit square and its points are unchanged. *)
Example load_square :
  exists t,
    Loader.loadFile Sample.toString Sample.fs ["files"; "simple"; "square.json"] false = Ok t /\
    Loader.name t = "simple/square.json" /\
    Loader.extent t = {| minX := Fin 0; minY := Fin 0; maxX := Fin 1; maxY := Fin 1 |} /\
    Loader.points t = json_points Sample.square.
Proof. eexists. repeat split. Qed.

(** The fixture with a repeated point, loaded with [dedupe]: the second
    [[0, 0]] is dropped and the extent is that of the three points. *)
Example load_repeated :
  exists t,
    Loader.loadFile Sample.toString Sample.fs ["files"; "dups"; "repeated.json"] true = Ok t /\
    Loader.points t = Some [Sample.pt 0 0; Sample.pt 1 1] /\
    Loader.extent t = {| minX := Fin 0; minY := Fin 0; maxX := Fin 1; maxY := Fin 1 |}.
Proof. eexists. split; [vm_compute; reflexivity|]. split; reflexivity. Qed.

(** ** The two copies *)

(** The two constructors throw the same exception or return records with the
    same properties, the second after writing to the console at most. *)
Lemma constructors_agree (Number_toString : number -> string)
    (raw : json) (pth : URL) (dedupe : bool) (out : console) :
  same_outcome same_fields
    (Loader.TestFile_new Number_toString raw pth dedupe)
    (Part000.Test_new Number_toString raw pth dedupe out).1 /\
  exists lines, (Part000.Test_new Number_toString raw pth dedupe out).2 = out ++ lines.
Proof.
  destruct raw as [|o].
  - split; [constructor | exists []; now rewrite app_nil_r].
  - destruct (json_points o) as [pts|] eqn:E.
    + destruct (Test_new_run Number_toString o pth dedupe pts out E) as [lines ->].
      rewrite (TestFile_new_run Number_toString o pth dedupe pts E).
      split; [|now exists lines].
      constructor. repeat split.
    + rewrite (Test_new_no_points Number_toString o pth dedupe out E).
      rewrite (TestFile_new_no_points Number_toString o pth dedupe E).
      split; [constructor | exists []; now rewrite app_nil_r].
Qed.

Lemma loadFile_agree (Number_toString : number -> string)
    (fs : dirent) (pth : URL) (dedupe : bool) (out : console) :
  same_outcome same_fields
    (Loader.loadFile Number_toString fs pth dedupe)
    (Part000.loadFile Number_toString fs pth dedupe out).1.
Proof.
  unfold Loader.loadFile, Part000.loadFile, mbind, IO_bind, result_bind, lift.
  destruct (readFileSync fs pth) as [[|v]|e]; try constructor.
  apply constructors_agree.
Qed.

Lemma map_loadFile_agree (Number_toString : number -> string)
    (fs : dirent) (dedupe : bool) (files : list URL) (out : console) :
  same_outcome (Forall2 same_fields)
    (map_throwing (fun p => Loader.loadFile Number_toString fs p dedupe) files)
    (map_IO (fun p => Part000.loadFile Number_toString fs p dedupe) files out).1.
Proof.
  revert out. induction files as [|p files IH]; intros out.
  - constructor. constructor.
  - cbn [map_throwing map_IO]. unfold mbind at 1 3. unfold result_bind, IO_bind.
    pose proof (loadFile_agree Number_toString fs p dedupe out) as Hp.
    destruct (Part000.loadFile Number_toString fs p dedupe out) as [r out1].
    cbn [fst] in Hp. inversion Hp as [t u Htu Et Eu|e Et Eu]; subst; [|constructor].
    fold (@map_throwing URL Loader.TestFile) (@map_IO URL Part000.Test).
    unfold mbind. unfold result_bind, IO_bind.
    specialize (IH out1).
    destruct (map_IO (fun p => Part000.loadFile Number_toString fs p dedupe) files out1)
      as [r2 out2].
    cbn [fst] in IH. inversion IH as [ts us Hts Ets Eus|e Ets Eus]; subst.
    + constructor. constructor; assumption.
    + constructor.
Qed.

Lemma filter_Forall2 {A B} (R : A -> B -> Prop) (f : A -> bool) (g : B -> bool)
    (l : list A) (k : list B) :
  (forall a b, R a b -> f a = g b) ->
  Forall2 R l k -> Forall2 R (List.filter f l) (List.filter g k).
Proof.
  intros Hfg H. induction H as [|a b l k Hab _ IH]; simpl; [constructor|].
  rewrite (Hfg a b Hab). destruct (g b); [constructor; assumption | exact IH].
Qed.

(** C10: the two copies compute the same.  [dedupePoints] of the second copy
    returns the array the first returns, and writes one line to the console;
    [pointsExtent] and [scalePoints] are the same functions; from the same
    raw fixture, path and flag, [new TestFile] and [new Test] both throw the
    same exception or return records with equal [points], [edges],
    [source], [error], [name] and [extent], the second after writing to the
    console at most. *)
Theorem copies_agree (Number_toString : number -> string) :
  (forall points out, exists n,
     Part000.dedupePoints Number_toString points out =
     (Ok (Loader.dedupePoints Number_toString points), out ++ [("dup", n)])) /\
  (forall points, Part000.pointsExtent points = Loader.pointsExtent points) /\
  (forall points width height offX offY,
     Part000.scalePoints points width height offX offY =
     Loader.scalePoints points width height offX offY) /\
  (forall raw pth dedupe out,
     same_outcome same_fields
       (Loader.TestFile_new Number_toString raw pth dedupe)
       (Part000.Test_new Number_toString raw pth dedupe out).1 /\
     exists lines, (Part000.Test_new Number_toString raw pth dedupe out).2 = out ++ lines).
Proof.
  split; [|split; [|split]].
  - intros points out. eexists.
    rewrite Part000_dedupePoints_run, Loader_dedupePoints_keep_first. reflexivity.
  - reflexivity.
  - reflexivity.
  - intros raw pth dedupe out. apply constructors_agree.
Qed.

(** X3: the two copies of [loadTests] throw the same exception or return
    sequences of records with the same properties, one by one. *)
Theorem loadTests_agree (Number_toString : number -> string)
    (fs : dirent) (allowErrors dedupe : option bool) (out : console) :
  same_outcome (Forall2 same_fields)
    (Loader.loadTests Number_toString fs allowErrors dedupe)
    (Part000.loadTests Number_toString fs allowErrors dedupe out).1.
Proof.
  unfold Loader.loadTests, Part000.loadTests.
  unfold mbind at 1 3. unfold result_bind, IO_bind, lift.
  destruct (collectFiles fs (relapath "./files")) as [files|e]; [|constructor].
  unfold mbind. unfold result_bind, IO_bind.
  pose proof (map_loadFile_agree Number_toString fs (default false dedupe) files out) as H.
  destruct (map_IO _ files out) as [r out1].
  cbn [fst] in H. inversion H as [ts us Hts Ets Eus|e Ets Eus]; subst; [|constructor].
  constructor. apply filter_Forall2; [|exact Hts].
  intros t u (_ & _ & _ & He & _). now rewrite He.
Qed.

(** X21: the two copies of [findTest] agree: on sequences of records with
    pairwise equal properties they both find nothing, or find records with
    equal properties. *)
Lemma findTest_agree (tests : list Loader.TestFile) (tests' : list Part000.Test)
    (search : string) :
  Forall2 same_fields tests tests' ->
  option_Forall2 same_fields (Loader.findTest tests search)
                             (Part000.findTest tests' search).
Proof.
  intros H. unfold Loader.findTest, Part000.findTest.
  induction H as [|t u l k Htu _ IH]; simpl; [constructor|].
  destruct Htu as (Hp & He & Hs & Hr & Hn & Hx). rewrite Hn.
  destruct (includes (Part000.name u) search); [|exact IH].
  constructor. repeat split; assumption.
Qed.

(** ** scalePoints *)

(** X2: the degenerate case the specification leaves open.  For a single point
    the extent has zero width and height, both scale factors are [+Infinity]
    for a positive target, and zero times infinity makes both coordinates of
    the result NaN: the function guards nothing. *)
Theorem scalePoints_single_point (x y width height offX offY : Q) :
  (0 < width)%Q -> (0 < height)%Q ->
  Loader.scalePoints [(Fin x, Fin y)] (Fin width) (Fin height)
    (Some (Fin offX)) (Some (Fin offY)) = [(NaN, NaN)].
Proof.
  intros Hw Hh.
  assert (E : Loader.pointsExtent [(Fin x, Fin y)] =
              {| minX := Fin x; minY := Fin y; maxX := Fin x; maxY := Fin y |})
    by reflexivity.
  assert (S : forall u t : Q, (0 < t)%Q -> (Fin t / (Fin u - Fin u))%num = Infinity).
  { intros u t Ht. unfold num_sub, num_neg, num_add, num_div.
    replace (Qeq_bool (u + - u) 0) with true by (symmetry; apply Qeq_bool_iff; ring).
    unfold signed_infinity. now replace (0 ?= t)%Q with Lt by (symmetry; now apply Qlt_alt). }
  assert (M : forall u : Q, ((Fin u - Fin u) * Infinity)%num = NaN).
  { intros u. unfold num_sub, num_neg, num_add, num_mul, signed_infinity.
    now replace (0 ?= u + - u)%Q with Eq by (symmetry; apply Qeq_alt; ring). }
  unfold Loader.scalePoints. rewrite E.
  cbn [minX minY maxX maxY default from_option id map].
  rewrite (S x width Hw), (S y height Hh).
  change (Math_min Infinity Infinity) with Infinity.
  rewrite (M x), (M y). reflexivity.
Qed.

(** ** scalePoints on binary64 *)















(** ** The theorems at sample inputs *)

Lemma pointsExtent_bounds_attained_witness :
  [Sample.pt 0 0; Sample.pt 2 1] <> [] /\
  Forall no_NaN [Sample.pt 0 0; Sample.pt 2 1] /\
  (exists p, p ∈ [Sample.pt 0 0; Sample.pt 2 1] /\
     p.1 = maxX (Loader.pointsExtent [Sample.pt 0 0; Sample.pt 2 1])).
Proof.
  assert (H1 : [Sample.pt 0 0; Sample.pt 2 1] <> []) by discriminate.
  assert (H2 : Forall no_NaN [Sample.pt 0 0; Sample.pt 2 1])
    by (repeat constructor; discriminate).
  split; [exact H1|]. split; [exact H2|].
  destruct (pointsExtent_bounds_attained _ H1 H2) as (_ & _ & _ & H & _).
  exact H.
Defined.

Lemma dedupePoints_keeps_first_occurrences_witness :
  Sample.store !! 4%positive = Some (Store.Array [1; 2; 3]%positive) /\
  Forall2 (fun p v => Store.point_at Sample.store p = Some v) [1; 2; 3]%positive
    [Sample.pt 0 0; Sample.pt 0 0; Sample.pt 1 1] /\
  exists ret rs h',
    Store.dedupePoints Sample.toString 4%positive Sample.store = Ok (ret, h') /\
    h' !! 4%positive = Some (Store.Array [1; 2; 3]%positive) /\
    sublist rs [1; 2; 3]%positive.
Proof.
  assert (H1 : Sample.store !! 4%positive = Some (Store.Array [1; 2; 3]%positive))
    by reflexivity.
  assert (H2 : Forall2 (fun p v => Store.point_at Sample.store p = Some v)
                 [1; 2; 3]%positive [Sample.pt 0 0; Sample.pt 0 0; Sample.pt 1 1])
    by (repeat constructor).
  split; [exact H1|]. split; [exact H2|].
  destruct (dedupePoints_keeps_first_occurrences Sample.toString _ _ _ _ H1 H2)
    as (ret & rs & h' & E & _ & _ & Hin & _ & Hsub & _).
  exists ret, rs, h'. auto.
Defined.

Lemma record_extent_and_edges_ignore_dedupe_witness :
  json_points Sample.repeated = Some [Sample.pt 0 0; Sample.pt 0 0; Sample.pt 1 1] /\
  exists plain deduped,
    Loader.TestFile_new Sample.toString (JObject Sample.repeated)
      ["files"; "dups"; "repeated.json"] false = Ok plain /\
    Loader.TestFile_new Sample.toString (JObject Sample.repeated)
      ["files"; "dups"; "repeated.json"] true = Ok deduped /\
    Loader.extent plain = Loader.extent deduped /\
    Loader.edges plain = Loader.edges deduped.
Proof.
  split; [reflexivity|].
  destruct (record_extent_and_edges_ignore_dedupe Sample.toString Sample.repeated
              ["files"; "dups"; "repeated.json"] _ eq_refl)
    as ((plain & deduped & E1 & E2 & X1 & X2 & G1 & G2 & _) & _).
  exists plain, deduped. repeat split; congruence.
Defined.

Lemma loading_fails_on_bad_text_or_missing_points_witness :
  readFileSync Sample.broken ["files"; "bad.json"] = Ok Malformed /\
  Loader.loadFile Sample.toString Sample.broken ["files"; "bad.json"] false =
    Throw SyntaxError /\
  throws (Loader.loadTests Sample.toString Sample.broken None None).
Proof.
  destruct (loading_fails_on_bad_text_or_missing_points Sample.toString)
    as (Hbad & _ & _ & Habort & _).
  assert (H1 : readFileSync Sample.broken ["files"; "bad.json"] = Ok Malformed)
    by reflexivity.
  split; [exact H1|]. split; [exact (Hbad _ _ false H1)|].
  apply (Habort Sample.broken None None
           [["files"; "square.json"]; ["files"; "bad.json"]] ["files"; "bad.json"]).
  - reflexivity.
  - apply list_elem_of_further, list_elem_of_here.
  - exists SyntaxError. exact (Hbad _ _ false H1).
Defined.

Lemma loadTests_keeps_falsy_errors_witness :
  exists all kept,
    Loader.loadTests Sample.toString Sample.fs (Some true) None = Ok all /\
    Loader.loadTests Sample.toString Sample.fs (Some false) None = Ok kept /\
    length all = 4 /\ length kept = 3 /\
    sublist kept all.
Proof.
  destruct (loadTests_keeps_falsy_errors Sample.toString Sample.fs None) as (H & _).
  eexists. 
  edestruct H as (_ & kept & Hk & _ & Hf & Hs & _); [reflexivity|].
  exists kept. split; [reflexivity|]. split; [exact Hk|].
  split; [reflexivity|]. split; [rewrite Hf; reflexivity | exact Hs].
Defined.

Lemma scalePoints_single_point_witness :
  (0 < 10)%Q /\
  Loader.scalePoints [(Fin 1, Fin 1)] (Fin 10) (Fin 10) (Some (Fin 0)) (Some (Fin 0)) =
  [(NaN, NaN)].
Proof.
  assert (H : (0 < 10)%Q) by reflexivity.
  split; [exact H|]. exact (scalePoints_single_point 1 1 10 10 0 0 H H).
Defined.


(** * Further properties *)

(** ** Loading one file *)

Section LoadFile.

Variable Number_toString : number -> string.

(** What [loadFile] returns, when it returns. *)
Lemma loadFile_Ok_inv (fs : dirent) (pth : URL) (dedupe : bool) (t : Loader.TestFile) :
  Loader.loadFile Number_toString fs pth dedupe = Ok t ->
  exists n o pts,
    resolve fs pth = Some (File n (Some (Parses (JObject o)))) /\
    json_points o = Some pts /\
    t = {| Loader.points :=
             Some (if dedupe then Loader.dedupePoints Number_toString pts else pts);
           Loader.edges := json_edges o;
           Loader.source := default null (json_source o);
           Loader.error := default null (json_error o);
           Loader.name := replace_backslashes (path_relative (relapath "./files/") pth);
           Loader.extent := Loader.pointsExtent pts |}.
Proof.
  unfold Loader.loadFile, readFileSync.
  destruct (resolve fs pth) as [[n [[|[|o]]|]|n ents|n]|]; try discriminate.
  cbn [mbind result_bind JSON_parse].
  destruct (json_points o) as [pts|] eqn:E.
  - rewrite (TestFile_new_run Number_toString o pth dedupe pts E).
    intros [= <-]. now exists n, o, pts.
  - now rewrite (TestFile_new_no_points Number_toString o pth dedupe E).
Qed.

Lemma loadTests_all_inv (fs : dirent) (dedupe : option bool) (all : list Loader.TestFile) :
  Loader.loadTests Number_toString fs (Some true) dedupe = Ok all ->
  exists files, collectFiles fs (relapath "./files") = Ok files /\
    Forall2 (fun p t => Loader.loadFile Number_toString fs p (default false dedupe) = Ok t)
      files all.
Proof.
  unfold Loader.loadTests.
  destruct (collectFiles fs (relapath "./files")) as [files|e]; [|discriminate].
  cbn [mbind result_bind default].
  destruct (map_throwing _ files) as [ret|e] eqn:Eret; [|discriminate].
  cbn. rewrite filter_all. intros [= <-].
  exists files. split; [reflexivity | now apply map_throwing_Ok].
Qed.

End LoadFile.

(** ** Names *)

Lemma replace_backslashes_clean (s pre post : string) :
  replace_backslashes s <> pre +:+ String "\"%char post.
Proof.
  revert pre. induction s as [|c s IH]; intros pre; simpl.
  - destruct pre; discriminate.
  - destruct pre as [|a pre]; simpl.
    + destruct (Ascii.eqb c "\"%char) eqn:E; [discriminate|].
      intros [= -> _]. now rewrite Ascii.eqb_refl in E.
    + intros [= _ H]. now apply IH in H.
Qed.

(** X5: the name of a record never contains a backslash, whatever the
    platform made of the path: the constructor replaces every one of them.
    This holds for the record of [loadFile] and for every record that
    [loadTests] returns. *)
Theorem record_names_have_no_backslash
    (Number_toString : number -> string) (fs : dirent) :
  (forall pth dedupe t,
     Loader.loadFile Number_toString fs pth dedupe = Ok t ->
     ~ contains (Loader.name t) "\") /\
  (forall allowErrors dedupe all,
     Loader.loadTests Number_toString fs allowErrors dedupe = Ok all ->
     Forall (fun t => ~ contains (Loader.name t) "\") all).
Proof.
  assert (Hfile : forall pth dedupe t,
            Loader.loadFile Number_toString fs pth dedupe = Ok t ->
            ~ contains (Loader.name t) "\").
  { intros pth dedupe t H.
    apply loadFile_Ok_inv in H as (n & o & pts & _ & _ & ->). cbn [Loader.name].
    intros (pre & post & E). now apply replace_backslashes_clean in E. }
  split; [exact Hfile|].
  intros allowErrors dedupe all. unfold Loader.loadTests.
  destruct (collectFiles fs (relapath "./files")) as [files|e]; [|discriminate].
  cbn [mbind result_bind].
  destruct (map_throwing _ files) as [ret|e] eqn:Eret; [|discriminate].
  intros [= <-]. apply map_throwing_Ok in Eret.
  apply Forall_forall. intros t Ht. apply elem_of_filter in Ht as [Ht _].
  clear -Eret Ht Hfile. revert t Ht.
  induction Eret as [|p u files' ret' Hp _ IH]; intros t Ht; [inversion Ht|].
  apply elem_of_cons in Ht as [->|Ht]; [exact (Hfile _ _ _ Hp) | now apply IH].
Qed.

(** ** What loading throws *)

Lemma map_throwing_first {A B} (f : A -> result B) (before after : list A) (a : A) (e : exn) :
  Forall (fun q => exists b, f q = Ok b) before ->
  f a = Throw e ->
  map_throwing f (before ++ a :: after) = Throw e.
Proof.
  intros Hb Ha. induction Hb as [|q before [b Hq] _ IH]; simpl.
  - now rewrite Ha.
  - rewrite Hq. cbn [mbind result_bind]. now rewrite IH.
Qed.

(** X7: [loadTests] throws what the first file that fails, in the order of the
    walk, throws: the files before it have been loaded and their records are
    lost, the files after it are not read.  And it throws the error of the
    file system when the directory [files] cannot be listed. *)
Theorem loadTests_throws_first_failure
    (Number_toString : number -> string) (fs : dirent)
    (allowErrors dedupe : option bool) :
  (forall before p after e,
     collectFiles fs (relapath "./files") = Ok (before ++ p :: after) ->
     Forall (fun q => exists t,
               Loader.loadFile Number_toString fs q (default false dedupe) = Ok t)
            before ->
     Loader.loadFile Number_toString fs p (default false dedupe) = Throw e ->
     Loader.loadTests Number_toString fs allowErrors dedupe = Throw e) /\
  (forall e, collectFiles fs (relapath "./files") = Throw e ->
     e = SystemError /\
     Loader.loadTests Number_toString fs allowErrors dedupe = Throw SystemError).
Proof.
  split.
  - intros before p after e Hfiles Hbefore Hp.
    unfold Loader.loadTests. rewrite Hfiles. cbn [mbind result_bind].
    now rewrite (map_throwing_first _ before after p e Hbefore Hp).
  - intros e He. unfold Loader.loadTests. rewrite He. cbn [mbind result_bind].
    unfold collectFiles, readdirSync in He.
    destruct (resolve fs (relapath "./files")) as [[| |]|]; cbn in He; now inversion He.
Qed.

(** ** The flag [dedupe] over a whole load *)

Lemma map_throwing_related {A B C} (R : B -> C -> Prop)
    (f : A -> result B) (g : A -> result C) (l : list A) :
  (forall a, same_outcome R (f a) (g a)) ->
  same_outcome (Forall2 R) (map_throwing f l) (map_throwing g l).
Proof.
  intros H. induction l as [|a l IH]; simpl.
  - constructor. constructor.
  - destruct (H a) as [b c Hbc|e]; cbn [mbind result_bind]; [|constructor].
    destruct IH as [bs cs Hbs|e]; cbn [mbind result_bind]; constructor.
    now constructor.
Qed.

Lemma loadFile_with_and_without_dedupe
    (Number_toString : number -> string) (fs : dirent) (pth : URL) :
  same_outcome (deduped_of Number_toString)
    (Loader.loadFile Number_toString fs pth false)
    (Loader.loadFile Number_toString fs pth true).
Proof.
  unfold Loader.loadFile, readFileSync.
  destruct (resolve fs pth) as [[n [[|[|o]]|]|n ents|n]|];
    cbn [mbind result_bind JSON_parse]; try constructor.
  destruct (json_points o) as [pts|] eqn:E.
  - rewrite !(TestFile_new_run Number_toString o pth _ pts E).
    constructor. unfold deduped_of. cbn. repeat split. now exists pts.
  - rewrite !(TestFile_new_no_points Number_toString o pth _ E). constructor.
Qed.

(** X8: the flag [dedupe] changes nothing of a load but the points of the
    records.  With and without it, [loadTests] throws the same exception or
    returns records of the same files in the same order, with the same
    [edges], [source], [error], [name] and [extent]; the points of each record
    of the load with [dedupe] are [dedupePoints] of the points of the
    corresponding record of the load without. *)
Theorem loadTests_dedupe_changes_points_only
    (Number_toString : number -> string) (fs : dirent) (allowErrors : option bool) :
  same_outcome (Forall2 (deduped_of Number_toString))
    (Loader.loadTests Number_toString fs allowErrors (Some false))
    (Loader.loadTests Number_toString fs allowErrors (Some true)).
Proof.
  unfold Loader.loadTests.
  destruct (collectFiles fs (relapath "./files")) as [files|e];
    cbn [mbind result_bind default from_option id]; [|constructor].
  destruct (map_throwing_related (deduped_of Number_toString)
              (fun p => Loader.loadFile Number_toString fs p false)
              (fun p => Loader.loadFile Number_toString fs p true) files
              (loadFile_with_and_without_dedupe Number_toString fs))
    as [ts us Hts|e]; cbn [mbind result_bind]; constructor.
  apply filter_Forall2; [|exact Hts].
  intros t u (_ & _ & _ & He & _). now rewrite He.
Qed.

(** ** The console of the second copy *)

Section Console.

Variable Number_toString : number -> string.

Abbreviation key := (point_key Number_toString).

(** The keys seen count the points kept. *)
Lemma keep_first_size (l : list P2) (seen : gset string) :
  size (seen ∪ list_to_set (key <$> l)) = size seen + length (keep_first key seen l).
Proof.
  revert seen. induction l as [|a l IH]; intros seen; simpl.
  - rewrite Nat.add_0_r. f_equal. set_solver.
  - case_bool_decide as Hin.
    + rewrite <- IH. f_equal. set_solver.
    + simpl. rewrite Nat.add_succ_r, <- Nat.add_succ_l.
      replace (S (size seen)) with (size ({[key a]} ∪ seen)).
      * rewrite <- IH. f_equal. set_solver.
      * rewrite size_union by set_solver. now rewrite size_singleton.
Qed.

End Console.

(** X9: the number the second copy of [dedupePoints] writes after [dup] is the
    number of points it dropped: the length of its argument less the length
    of its result, which is never negative. *)
Theorem dedupePoints_logs_dropped_points
    (Number_toString : number -> string) (points : list P2) (out : console) :
  exists ret,
    Part000.dedupePoints Number_toString points out =
      (Ok ret, out ++ [("dup", Z.of_nat (length points - length ret))]) /\
    ret = Loader.dedupePoints Number_toString points /\
    length ret <= length points.
Proof.
  exists (keep_first (point_key Number_toString) ∅ points).
  assert (Hle : length (keep_first (point_key Number_toString) ∅ points) <= length points)
    by apply sublist_length, keep_first_sublist.
  split; [|split; [now rewrite Loader_dedupePoints_keep_first | exact Hle]].
  rewrite Part000_dedupePoints_run. f_equal. f_equal. f_equal. f_equal.
  pose proof (keep_first_size Number_toString points ∅) as Hs.
  rewrite size_empty in Hs. simpl in Hs.
  replace (∅ ∪ list_to_set (point_key Number_toString <$> points) : gset string)
    with (list_to_set (point_key Number_toString <$> points) : gset string) in Hs
    by set_solver.
  rewrite Hs. lia.
Qed.

Section ConsoleOfLoad.

Variable Number_toString : number -> string.

Lemma dup_count_nonneg (points : list P2) :
  (0 <= Z.of_nat (length points) -
        Z.of_nat (size (list_to_set (point_key Number_toString <$> points) : gset string)))%Z.
Proof.
  pose proof (keep_first_size Number_toString points ∅) as Hs.
  rewrite size_empty in Hs. simpl in Hs.
  replace (∅ ∪ list_to_set (point_key Number_toString <$> points) : gset string)
    with (list_to_set (point_key Number_toString <$> points) : gset string) in Hs
    by set_solver.
  pose proof (sublist_length _ _ (keep_first_sublist (point_key Number_toString) points ∅)).
  lia.
Qed.

(** What loading one file writes: nothing without [dedupe] and nothing when
    it throws; one line [dup n] when it returns with [dedupe]. *)
Lemma Part000_loadFile_console (fs : dirent) (pth : URL) (dedupe : bool) (out : console) :
  exists lines,
    (Part000.loadFile Number_toString fs pth dedupe out).2 = out ++ lines /\
    Forall dup_line lines /\
    (dedupe = false -> lines = []) /\
    (dedupe = true ->
     forall t, (Part000.loadFile Number_toString fs pth dedupe out).1 = Ok t ->
     length lines = 1).
Proof.
  unfold Part000.loadFile, readFileSync, mbind, IO_bind, lift.
  destruct (resolve fs pth) as [[n [[|[|o]]|]|n ents|n]|]; cbn [JSON_parse];
    try (exists []; rewrite app_nil_r; repeat split; [constructor | discriminate]).
  destruct (json_points o) as [pts|] eqn:E.
  - unfold Part000.Test_new. rewrite E. destruct dedupe.
    + unfold mbind, IO_bind, lift, iterate, mret, IO_ret.
      rewrite Part000_dedupePoints_run. cbn [fst snd].
      eexists. split; [reflexivity|]. split.
      * constructor; [|constructor]. split; [reflexivity | apply dup_count_nonneg].
      * split; [discriminate | reflexivity].
    + exists []. rewrite app_nil_r. repeat split; [constructor | discriminate].
  - rewrite (Test_new_no_points Number_toString o pth dedupe out E).
    exists []. rewrite app_nil_r. repeat split; [constructor | discriminate].
Qed.

Lemma Part000_map_console (fs : dirent) (dedupe : bool) (files : list URL) :
  forall out, exists lines,
    (map_IO (fun p => Part000.loadFile Number_toString fs p dedupe) files out).2 =
      out ++ lines /\
    Forall dup_line lines /\
    (dedupe = false -> lines = []) /\
    (dedupe = true ->
     forall all,
       (map_IO (fun p => Part000.loadFile Number_toString fs p dedupe) files out).1 = Ok all ->
       length lines = length files).
Proof.
  induction files as [|p files IH]; intros out.
  - exists []. rewrite app_nil_r. repeat split; constructor.
  - cbn [map_IO]. unfold mbind, IO_bind, mret, IO_ret.
    destruct (Part000_loadFile_console fs p dedupe out) as (l1 & E1 & F1 & N1 & O1).
    destruct (Part000.loadFile Number_toString fs p dedupe out) as [[t|e] out1];
      cbn [fst snd] in *; subst out1.
    + destruct (IH (out ++ l1)) as (l2 & E2 & F2 & N2 & O2).
      destruct (map_IO _ files (out ++ l1)) as [[ts|e] out2]; cbn [fst snd] in *; subst out2.
      * exists (l1 ++ l2). rewrite app_assoc. split; [reflexivity|].
        split; [now apply Forall_app|]. split.
        -- intros Hd. now rewrite (N1 Hd), (N2 Hd).
        -- intros Hd all _. rewrite length_app, (O1 Hd t eq_refl), (O2 Hd ts eq_refl).
           reflexivity.
      * exists (l1 ++ l2). rewrite app_assoc. split; [reflexivity|].
        split; [now apply Forall_app|]. split.
        -- intros Hd. now rewrite (N1 Hd), (N2 Hd).
        -- intros Hd all Hall. cbn in Hall. discriminate.
    + exists l1. split; [reflexivity|]. split; [exact F1|]. split; [exact N1|].
      intros Hd all Hall. cbn in Hall. discriminate.
Qed.

End ConsoleOfLoad.

(** X10: what the second copy of [loadTests] writes to the console.  It only
    appends lines, each [dup n] with [n] not negative; without [dedupe] it
    writes nothing, whatever it loads or throws; and when it returns with
    [dedupe] it has written one line for each file of the walk, dropped by
    the filter or not. *)
Theorem loadTests_console
    (Number_toString : number -> string) (fs : dirent)
    (allowErrors dedupe : option bool) (out : console) :
  exists lines,
    (Part000.loadTests Number_toString fs allowErrors dedupe out).2 = out ++ lines /\
    Forall dup_line lines /\
    (default false dedupe = false -> lines = []) /\
    (default false dedupe = true ->
     forall kept,
       (Part000.loadTests Number_toString fs allowErrors dedupe out).1 = Ok kept ->
       exists files, collectFiles fs (relapath "./files") = Ok files /\
                     length lines = length files).
Proof.
  unfold Part000.loadTests. unfold mbind, IO_bind, mret, IO_ret, lift.
  destruct (collectFiles fs (relapath "./files")) as [files|e].
  - 
    destruct (Part000_map_console Number_toString fs (default false dedupe) files out)
      as (lines & E & F & N & O).
    destruct (map_IO _ files out) as [[ts|e] out1]; cbn [fst snd] in *; subst out1.
    + exists lines. split; [reflexivity|]. split; [exact F|]. split; [exact N|].
      intros Hd kept _. exists files. split; [reflexivity|]. exact (O Hd ts eq_refl).
    + exists lines. split; [reflexivity|]. split; [exact F|]. split; [exact N|].
      intros Hd kept Hk. cbn in Hk. discriminate.
  - exists []. rewrite app_nil_r. split; [reflexivity|]. split; [constructor|].
    split; [reflexivity|]. intros Hd kept Hk. cbn in Hk. discriminate.
Qed.

(** ** More on findTest *)

Lemma contains_itself (s : string) : contains s s.
Proof.
  exists "", "". change (s = s +:+ "").
  induction s as [|c s IH]; [reflexivity|].
  change (String c s = String c (s +:+ "")). now f_equal.
Qed.

Lemma contains_empty (s : string) : contains s "".
Proof. exists "", s. reflexivity. Qed.

Lemma find_app {A} (f : A -> bool) (l1 l2 : list A) :
  List.find f (l1 ++ l2) =
  match List.find f l1 with Some a => Some a | None => List.find f l2 end.
Proof.
  induction l1 as [|a l1 IH]; simpl; [reflexivity|]. now destruct (f a).
Qed.

(** X11: looking a record of the sequence up by its own name always finds a
    record, one whose name contains that name, which is the record itself or
    one before it; the empty search string finds the first record of any
    sequence; and a search in two sequences one after the other finds what
    it finds in the first, and only else what it finds in the second. *)
Theorem findTest_by_own_name (tests : list Loader.TestFile) :
  (forall t, t ∈ tests ->
     exists u before after,
       Loader.findTest tests (Loader.name t) = Some u /\
       contains (Loader.name u) (Loader.name t) /\
       tests = before ++ u :: after /\
       (u = t \/ t ∈ after)) /\
  Loader.findTest tests "" = head tests /\
  (forall more search,
     Loader.findTest (tests ++ more) search =
     match Loader.findTest tests search with
     | Some u => Some u
     | None => Loader.findTest more search
     end).
Proof.
  split; [|split].
  - intros t Ht. unfold Loader.findTest.
    destruct (List.find (fun u => includes (Loader.name u) (Loader.name t)) tests)
      as [u|] eqn:E.
    + apply find_first in E as (before & after & -> & Hu & Hb).
      exists u, before, after. split; [reflexivity|].
      split; [now apply includes_spec|]. split; [reflexivity|].
      apply elem_of_app in Ht as [Ht|Ht].
      * rewrite Forall_forall in Hb. specialize (Hb t Ht). cbv beta in Hb.
        apply includes_false in Hb. destruct Hb. apply contains_itself.
      * apply elem_of_cons in Ht as [->|Ht]; [now left | now right].
    + apply find_nothing in E. rewrite Forall_forall in E. specialize (E t Ht).
      cbv beta in E. apply includes_false in E. destruct E. apply contains_itself.
  - unfold Loader.findTest. destruct tests as [|t tests]; [reflexivity|].
    simpl. replace (includes (Loader.name t) "") with true; [reflexivity|].
    symmetry. apply includes_spec, contains_empty.
  - intros more search. unfold Loader.findTest. apply find_app.
Qed.

(** ** More on dedupePoints *)

Lemma sublist_same_length {A} (l k : list A) :
  sublist l k -> length l = length k -> l = k.
Proof.
  induction 1 as [|x l k _ IH|x l k Hs _]; simpl; intros Hlen.
  - reflexivity.
  - f_equal. apply IH. lia.
  - apply sublist_length in Hs. lia.
Qed.

Lemma keep_first_app {A} (key : A -> string) (l1 l2 : list A) (seen : gset string) :
  keep_first key seen (l1 ++ l2) =
  keep_first key seen l1 ++ keep_first key (seen ∪ list_to_set (key <$> l1)) l2.
Proof.
  revert seen. induction l1 as [|a l1 IH]; intros seen; simpl.
  - f_equal. set_solver.
  - case_bool_decide as Hin.
    + rewrite IH. f_equal. f_equal. set_solver.
    + simpl. rewrite IH. f_equal. f_equal. f_equal. set_solver.
Qed.

Lemma keep_first_all_seen {A} (key : A -> string) (l : list A) (seen : gset string) :
  (forall a, a ∈ l -> key a ∈ seen) -> keep_first key seen l = [].
Proof.
  induction l as [|a l IH]; intros H; simpl; [reflexivity|].
  rewrite bool_decide_eq_true_2 by (apply H, list_elem_of_here).
  apply IH. intros b Hb. apply H. now apply list_elem_of_further.
Qed.

(** X12: [dedupePoints] never returns more points than it is given, and
    returns as many exactly when no two points of its argument have the same
    key, which is exactly when it returns its argument as it is. *)
Theorem dedupePoints_length (Number_toString : number -> string) (P : list P2) :
  length (Loader.dedupePoints Number_toString P) <= length P /\
  (length (Loader.dedupePoints Number_toString P) = length P <->
     NoDup (point_key Number_toString <$> P)) /\
  (Loader.dedupePoints Number_toString P = P <->
     NoDup (point_key Number_toString <$> P)).
Proof.
  rewrite Loader_dedupePoints_keep_first.
  pose proof (keep_first_sublist (point_key Number_toString) P ∅) as Hs.
  assert (Hid : NoDup (point_key Number_toString <$> P) ->
                keep_first (point_key Number_toString) ∅ P = P).
  { intros Hnd. apply keep_first_id; [exact Hnd|]. intros a _. apply not_elem_of_empty. }
  assert (Hnd : keep_first (point_key Number_toString) ∅ P = P ->
                NoDup (point_key Number_toString <$> P)).
  { intros E. rewrite <- E. apply keep_first_NoDup. }
  split; [now apply sublist_length|]. split; split.
  - intros Hlen. apply Hnd. now apply sublist_same_length.
  - intros H. now rewrite (Hid H).
  - exact Hnd.
  - exact Hid.
Qed.

(** X13: [dedupePoints] of two sequences one after the other is
    [dedupePoints] of the first followed by points of the second, in their
    order, none of which has the key of a point of the first.  So a sequence
    followed by itself gives what the sequence gives; and a non-empty
    sequence keeps its first point first: only the empty sequence gives the
    empty sequence. *)
Theorem dedupePoints_append (Number_toString : number -> string) (P Q : list P2) :
  (exists R,
     Loader.dedupePoints Number_toString (P ++ Q) =
       Loader.dedupePoints Number_toString P ++ R /\
     sublist R Q /\
     (forall r, r ∈ R ->
        point_key Number_toString r ∉ point_key Number_toString <$> P)) /\
  Loader.dedupePoints Number_toString (P ++ P) = Loader.dedupePoints Number_toString P /\
  (forall p, exists R,
     Loader.dedupePoints Number_toString (p :: Q) = p :: R) /\
  (Loader.dedupePoints Number_toString P = [] <-> P = []).
Proof.
  rewrite !Loader_dedupePoints_keep_first.
  split; [|split; [|split]].
  - eexists. split; [apply keep_first_app|]. split; [apply keep_first_sublist|].
    intros r Hr Hin. apply keep_first_unseen in Hr. apply Hr.
    apply elem_of_union. right. now apply elem_of_list_to_set.
  - rewrite keep_first_app.
    rewrite (keep_first_all_seen _ P (∅ ∪ list_to_set (point_key Number_toString <$> P)));
      [now rewrite app_nil_r|].
    intros a Ha. apply elem_of_union. right.
    apply elem_of_list_to_set, list_elem_of_fmap. now exists a.
  - intros p. rewrite Loader_dedupePoints_keep_first. simpl.
    rewrite bool_decide_eq_false_2 by apply not_elem_of_empty. eauto.
  - split; [|now intros ->]. destruct P as [|p P]; [reflexivity|]. simpl.
    rewrite bool_decide_eq_false_2 by apply not_elem_of_empty. discriminate.
Qed.

(** ** More on pointsExtent *)

Lemma Math_min_NaN_r (a : number) : Math_min a NaN = NaN.
Proof. now destruct a. Qed.

Lemma Math_max_NaN_r (a : number) : Math_max a NaN = NaN.
Proof. now destruct a. Qed.

Lemma Math_min_not_NaN (a b : number) : a <> NaN -> b <> NaN -> Math_min a b <> NaN.
Proof. intros Ha Hb. destruct (Math_min_cases a b Ha Hb) as [[-> _]|[-> _]]; assumption. Qed.

Lemma Math_max_not_NaN (a b : number) : a <> NaN -> b <> NaN -> Math_max a b <> NaN.
Proof. intros Ha Hb. destruct (Math_max_cases a b Ha Hb) as [[-> _]|[-> _]]; assumption. Qed.

Lemma fold_NaN (f : number -> number -> number) (xs : list number) :
  (forall x, f NaN x = NaN) -> fold_left f xs NaN = NaN.
Proof. intros H. induction xs as [|x xs IH]; simpl; [reflexivity | now rewrite H]. Qed.

(** A running minimum or maximum is NaN exactly when it has met a NaN. *)
Lemma fold_NaN_iff (f : number -> number -> number) (xs : list number) (a : number) :
  (forall x, f NaN x = NaN) -> (forall x, f x NaN = NaN) ->
  (forall x y, x <> NaN -> y <> NaN -> f x y <> NaN) ->
  a <> NaN ->
  fold_left f xs a = NaN <-> NaN ∈ xs.
Proof.
  intros Hl Hr Hn. revert a. induction xs as [|x xs IH]; intros a Ha; simpl.
  - split; [congruence | intros H; inversion H].
  - destruct x as [| |q|].
    + rewrite Hr, (fold_NaN f xs Hl). split; [intros _; apply list_elem_of_here | reflexivity].
    + rewrite (IH _ (Hn a NegInfinity Ha ltac:(discriminate))), elem_of_cons.
      split; [now right | intros [|]; [discriminate | assumption]].
    + rewrite (IH _ (Hn a (Fin q) Ha ltac:(discriminate))), elem_of_cons.
      split; [now right | intros [|]; [discriminate | assumption]].
    + rewrite (IH _ (Hn a Infinity Ha ltac:(discriminate))), elem_of_cons.
      split; [now right | intros [|]; [discriminate | assumption]].
Qed.

(** X14: a NaN coordinate takes over both bounds of its axis: [minX] is NaN
    exactly when some point has a NaN x, and so is [maxX]; likewise for y.
    The bounds of the other axis are not touched by it. *)
Theorem pointsExtent_NaN (P : list P2) :
  (minX (Loader.pointsExtent P) = NaN <-> exists p, p ∈ P /\ p.1 = NaN) /\
  (maxX (Loader.pointsExtent P) = NaN <-> exists p, p ∈ P /\ p.1 = NaN) /\
  (minY (Loader.pointsExtent P) = NaN <-> exists p, p ∈ P /\ p.2 = NaN) /\
  (maxY (Loader.pointsExtent P) = NaN <-> exists p, p ∈ P /\ p.2 = NaN).
Proof.
  assert (Hx : NaN ∈ P.*1 <-> exists p, p ∈ P /\ p.1 = NaN).
  { rewrite list_elem_of_fmap. split; intros (p & H1 & H2); exists p; auto. }
  assert (Hy : NaN ∈ P.*2 <-> exists p, p ∈ P /\ p.2 = NaN).
  { rewrite list_elem_of_fmap. split; intros (p & H1 & H2); exists p; auto. }
  unfold Loader.pointsExtent. rewrite pointsExtent_fold. cbn [minX minY maxX maxY num_neg].
  rewrite <- Hx, <- Hy.
  split; [|split; [|split]].
  - apply fold_NaN_iff; auto using Math_min_NaN_r, Math_min_not_NaN; discriminate.
  - apply fold_NaN_iff; auto using Math_max_NaN_r, Math_max_not_NaN; discriminate.
  - apply fold_NaN_iff; auto using Math_min_NaN_r, Math_min_not_NaN; discriminate.
  - apply fold_NaN_iff; auto using Math_max_NaN_r, Math_max_not_NaN; discriminate.
Qed.

Lemma Qle_bool_false (p q : Q) : Qle_bool p q = false -> (q < p)%Q.
Proof.
  intros H. apply Qnot_le_lt. intros L. apply Qle_bool_iff in L. congruence.
Qed.

Lemma Math_min_assoc (a b c : number) :
  Math_min (Math_min a b) c = Math_min a (Math_min b c).
Proof.
  destruct a as [| |p|], b as [| |q|], c as [| |r|]; try reflexivity;
    unfold Math_min; cbn [isNaN orb num_leb];
    repeat match goal with
           | |- context [Qle_bool ?x ?y] =>
               let E := fresh "E" in
               destruct (Qle_bool x y) eqn:E;
               [apply Qle_bool_iff in E | apply Qle_bool_false in E];
               cbn [isNaN orb num_leb]
           end;
    try reflexivity; exfalso; lra.
Qed.

Lemma Math_max_assoc (a b c : number) :
  Math_max (Math_max a b) c = Math_max a (Math_max b c).
Proof.
  destruct a as [| |p|], b as [| |q|], c as [| |r|]; try reflexivity;
    unfold Math_max; cbn [isNaN orb num_leb];
    repeat match goal with
           | |- context [Qle_bool ?x ?y] =>
               let E := fresh "E" in
               destruct (Qle_bool x y) eqn:E;
               [apply Qle_bool_iff in E | apply Qle_bool_false in E];
               cbn [isNaN orb num_leb]
           end;
    try reflexivity; exfalso; lra.
Qed.

Lemma Math_min_Infinity_l (a : number) : Math_min Infinity a = a.
Proof. now destruct a. Qed.

Lemma Math_max_NegInfinity_l (a : number) : Math_max NegInfinity a = a.
Proof. now destruct a. Qed.


Lemma Math_min_Infinity_r (a : number) : Math_min a Infinity = a.
Proof. now destruct a. Qed.

Lemma Math_max_NegInfinity_r (a : number) : Math_max a NegInfinity = a.
Proof. now destruct a. Qed.

(** A loop that starts from [a] gives what the loop from the neutral value
    gives, combined with [a]. *)
Lemma fold_from (f : number -> number -> number) (unit : number)
    (xs : list number) (a : number) :
  (forall x y z, f (f x y) z = f x (f y z)) ->
  (forall x, f unit x = x) -> (forall x, f x unit = x) ->
  fold_left f xs a = f a (fold_left f xs unit).
Proof.
  intros Hassoc Hl Hr. revert a. induction xs as [|x xs IH]; intros a; simpl.
  - now rewrite Hr.
  - rewrite Hl, (IH (f a x)), (IH x). apply Hassoc.
Qed.

(** X15: the extent of one point is that point on every side, and the extent
    of a concatenation is the smallest box around the extents of its two
    parts, so the extent of a long sequence can be computed piecewise. *)
Theorem pointsExtent_append (P Q : list P2) :
  Loader.pointsExtent (P ++ Q) =
    merge_extent (Loader.pointsExtent P) (Loader.pointsExtent Q) /\
  forall x y : number,
    Loader.pointsExtent [(x, y)] = {| minX := x; minY := y; maxX := x; maxY := y |}.
Proof.
  split.
  - unfold Loader.pointsExtent, merge_extent.
    rewrite fold_left_app, !pointsExtent_fold. cbn [minX minY maxX maxY num_neg].
    f_equal.
    + apply (fold_from Math_min Infinity);
        auto using Math_min_assoc, Math_min_Infinity_l, Math_min_Infinity_r.
    + apply (fold_from Math_min Infinity);
        auto using Math_min_assoc, Math_min_Infinity_l, Math_min_Infinity_r.
    + apply (fold_from Math_max NegInfinity);
        auto using Math_max_assoc, Math_max_NegInfinity_l, Math_max_NegInfinity_r.
    + apply (fold_from Math_max NegInfinity);
        auto using Math_max_assoc, Math_max_NegInfinity_l, Math_max_NegInfinity_r.
  - intros x y. unfold Loader.pointsExtent. cbn.
    now rewrite !Math_min_Infinity_l, !Math_max_NegInfinity_l.
Qed.

Lemma num_eq_not_NaN (a b : number) : num_eq a b -> a <> NaN /\ b <> NaN.
Proof. unfold num_eq. destruct a, b; simpl; intros H; split; congruence. Qed.

Lemma num_eq_le (a b : number) : num_eq a b -> num_le a b /\ num_le b a.
Proof.
  unfold num_eq, num_le. destruct a as [| |p|], b as [| |q|]; simpl; try congruence; auto.
  rewrite Qeq_bool_iff, !Qle_bool_iff. intros H. rewrite H. split; apply Qle_refl.
Qed.

Lemma num_le_antisym (a b : number) : num_le a b -> num_le b a -> num_eq a b.
Proof.
  unfold num_eq, num_le. destruct a as [| |p|], b as [| |q|]; simpl; try congruence.
  rewrite Qeq_bool_iff, !Qle_bool_iff. apply Qle_antisym.
Qed.

(** The running minimum over more values is not larger. *)
Lemma fold_min_mono (xs ys : list number) (a : number) :
  a <> NaN -> Forall (fun x => x <> NaN) xs -> Forall (fun y => y <> NaN) ys ->
  (forall y, y ∈ ys -> exists x, x ∈ xs /\ num_le x y) ->
  num_le (fold_left Math_min xs a) (fold_left Math_min ys a).
Proof.
  intros Ha Hxs Hys Hcov.
  destruct (fold_min_spec xs a Ha Hxs) as (_ & La & Lxs & _).
  destruct (fold_min_spec ys a Ha Hys) as (_ & _ & _ & [->|In]); [exact La|].
  destruct (Hcov _ In) as (x & Hx & Hle).
  rewrite Forall_forall in Lxs. specialize (Lxs x Hx).
  unfold num_le in *. eapply num_leb_trans; eauto.
Qed.

(** The running maximum over more values is not smaller. *)
Lemma fold_max_mono (xs ys : list number) (a : number) :
  a <> NaN -> Forall (fun x => x <> NaN) xs -> Forall (fun y => y <> NaN) ys ->
  (forall y, y ∈ ys -> exists x, x ∈ xs /\ num_le y x) ->
  num_le (fold_left Math_max ys a) (fold_left Math_max xs a).
Proof.
  intros Ha Hxs Hys Hcov.
  destruct (fold_max_spec xs a Ha Hxs) as (_ & La & Lxs & _).
  destruct (fold_max_spec ys a Ha Hys) as (_ & _ & _ & [->|In]); [exact La|].
  destruct (Hcov _ In) as (x & Hx & Hle).
  rewrite Forall_forall in Lxs. specialize (Lxs x Hx).
  unfold num_le in *. eapply num_leb_trans; eauto.
Qed.

Lemma point_eq_no_NaN (p q : P2) : point_eq p q -> no_NaN p /\ no_NaN q.
Proof.
  intros [H1 H2]. apply num_eq_not_NaN in H1, H2. unfold no_NaN. tauto.
Qed.

(** When every point of [Q] equals ([===] on both coordinates) a point of
    [P], the extent of [Q] lies within the extent of [P]. *)
Lemma extent_within (P Q : list P2) :
  Forall no_NaN P ->
  (forall q, q ∈ Q -> exists p, p ∈ P /\ point_eq q p) ->
  num_le (minX (Loader.pointsExtent P)) (minX (Loader.pointsExtent Q)) /\
  num_le (minY (Loader.pointsExtent P)) (minY (Loader.pointsExtent Q)) /\
  num_le (maxX (Loader.pointsExtent Q)) (maxX (Loader.pointsExtent P)) /\
  num_le (maxY (Loader.pointsExtent Q)) (maxY (Loader.pointsExtent P)).
Proof.
  intros HP Hcov.
  assert (HQ : Forall no_NaN Q).
  { apply Forall_forall. intros q Hq. destruct (Hcov q Hq) as (p & _ & E).
    now apply point_eq_no_NaN in E. }
  destruct (no_NaN_coordinates P HP) as [Px Py].
  destruct (no_NaN_coordinates Q HQ) as [Qx Qy].
  assert (Cx : forall y, y ∈ Q.*1 -> exists x, x ∈ P.*1 /\ num_le x y /\ num_le y x).
  { intros y Hy. apply list_elem_of_fmap in Hy as (q & -> & Hq).
    destruct (Hcov q Hq) as (p & Hp & [E _]). exists p.1.
    split; [apply list_elem_of_fmap; now exists p|]. apply num_eq_le in E. tauto. }
  assert (Cy : forall y, y ∈ Q.*2 -> exists x, x ∈ P.*2 /\ num_le x y /\ num_le y x).
  { intros y Hy. apply list_elem_of_fmap in Hy as (q & -> & Hq).
    destruct (Hcov q Hq) as (p & Hp & [_ E]). exists p.2.
    split; [apply list_elem_of_fmap; now exists p|]. apply num_eq_le in E. tauto. }
  unfold Loader.pointsExtent. rewrite !pointsExtent_fold. cbn [minX minY maxX maxY num_neg].
  split; [|split; [|split]].
  - apply fold_min_mono; try assumption; [discriminate|].
    intros y Hy. destruct (Cx y Hy) as (x & ? & ? & ?). now exists x.
  - apply fold_min_mono; try assumption; [discriminate|].
    intros y Hy. destruct (Cy y Hy) as (x & ? & ? & ?). now exists x.
  - apply fold_max_mono; try assumption; [discriminate|].
    intros y Hy. destruct (Cx y Hy) as (x & ? & ? & ?). now exists x.
  - apply fold_max_mono; try assumption; [discriminate|].
    intros y Hy. destruct (Cy y Hy) as (x & ? & ? & ?). now exists x.
Qed.

Lemma extent_eq_of_equal_points (P Q : list P2) :
  (forall p, p ∈ P -> exists q, q ∈ Q /\ point_eq p q) ->
  (forall q, q ∈ Q -> exists p, p ∈ P /\ point_eq q p) ->
  extent_eq (Loader.pointsExtent P) (Loader.pointsExtent Q).
Proof.
  intros HPQ HQP.
  assert (HP : Forall no_NaN P).
  { apply Forall_forall. intros p Hp. destruct (HPQ p Hp) as (q & _ & E).
    now apply point_eq_no_NaN in E. }
  assert (HQ : Forall no_NaN Q).
  { apply Forall_forall. intros q Hq. destruct (HQP q Hq) as (p & _ & E).
    now apply point_eq_no_NaN in E. }
  destruct (extent_within P Q HP HQP) as (A1 & A2 & A3 & A4).
  destruct (extent_within Q P HQ HPQ) as (B1 & B2 & B3 & B4).
  unfold extent_eq. auto using num_le_antisym.
Qed.

Lemma point_eq_refl (p : P2) : no_NaN p -> point_eq p p.
Proof.
  intros [H1 H2]. split; apply num_le_antisym; apply num_leb_refl; assumption.
Qed.

(** X16: for points without NaN, the extent grows with the set of points and
    depends on nothing else: if every point of [Q] occurs in [P], the extent
    of [Q] lies within that of [P]; and two sequences with the same points, in
    any order and with any repetitions, have [===] bounds. *)
Theorem pointsExtent_of_point_set (P Q : list P2) :
  Forall no_NaN P ->
  ((forall q, q ∈ Q -> q ∈ P) ->
   num_le (minX (Loader.pointsExtent P)) (minX (Loader.pointsExtent Q)) /\
   num_le (minY (Loader.pointsExtent P)) (minY (Loader.pointsExtent Q)) /\
   num_le (maxX (Loader.pointsExtent Q)) (maxX (Loader.pointsExtent P)) /\
   num_le (maxY (Loader.pointsExtent Q)) (maxY (Loader.pointsExtent P))) /\
  ((forall p, p ∈ P <-> p ∈ Q) ->
   extent_eq (Loader.pointsExtent P) (Loader.pointsExtent Q)) /\
  (P ≡ₚ Q -> extent_eq (Loader.pointsExtent P) (Loader.pointsExtent Q)).
Proof.
  intros HP. rewrite Forall_forall in HP.
  assert (Hsame : (forall p, p ∈ P <-> p ∈ Q) ->
                  extent_eq (Loader.pointsExtent P) (Loader.pointsExtent Q)).
  { intros H. apply extent_eq_of_equal_points.
    - intros p Hp. exists p. split; [now apply H | apply point_eq_refl, HP, Hp].
    - intros q Hq. apply H in Hq. exists q. split; [exact Hq | apply point_eq_refl, HP, Hq]. }
  split; [|split].
  - intros Hsub. apply extent_within; [now apply Forall_forall|].
    intros q Hq. exists q. split; [now apply Hsub | apply point_eq_refl, HP, Hsub, Hq].
  - exact Hsame.
  - intros Hperm. apply Hsame. intros p. now rewrite Hperm.
Qed.

(** X17: de-duplication does not move the extent.  When points of [P] with
    the same coordinate key are [===] on both coordinates (as they are under
    [Number::toString] for points without NaN), [dedupePoints(P)] has the
    extent of [P]; so the [extent] of a record, which the constructor takes
    from the raw points, is also the extent of the [points] it stores,
    whatever the [dedupe] flag. *)
Theorem dedupePoints_keeps_extent (Number_toString : number -> string) (P : list P2) :
  (forall p q, p ∈ P -> q ∈ P ->
     point_key Number_toString p = point_key Number_toString q -> point_eq p q) ->
  extent_eq (Loader.pointsExtent (Loader.dedupePoints Number_toString P))
            (Loader.pointsExtent P) /\
  forall (o : fixture) (pth : URL) (dedupe : bool),
    json_points o = Some P ->
    exists t pts,
      Loader.TestFile_new Number_toString (JObject o) pth dedupe = Ok t /\
      Loader.points t = Some pts /\
      extent_eq (Loader.extent t) (Loader.pointsExtent pts).
Proof.
  intros Hkey.
  assert (Hrefl : forall p, p ∈ P -> point_eq p p) by (intros p Hp; now apply Hkey).
  assert (Hd : extent_eq (Loader.pointsExtent (Loader.dedupePoints Number_toString P))
                         (Loader.pointsExtent P)).
  { rewrite Loader_dedupePoints_keep_first.
    pose proof (keep_first_sublist (point_key Number_toString) P ∅) as Hs.
    apply extent_eq_of_equal_points.
    - intros p Hp. exists p. pose proof (elem_of_sublist _ _ _ Hp Hs). auto.
    - intros q Hq.
      destruct (keep_first_covers (point_key Number_toString) P ∅ q Hq)
        as [Hin|(b & Hb & E)]; [set_solver|].
      exists b. split; [exact Hb|].
      apply Hkey; [exact Hq | exact (elem_of_sublist _ _ _ Hb Hs) | now symmetry]. }
  split; [exact Hd|].
  intros o pth dedupe Hpts. rewrite (TestFile_new_run _ _ _ _ _ Hpts).
  eexists. eexists. split; [reflexivity|]. split; [reflexivity|]. cbn.
  destruct dedupe.
  - destruct Hd as (A & B & C & D). unfold extent_eq.
    apply num_eq_le in A, B, C, D. repeat split; apply num_le_antisym; tauto.
  - apply extent_eq_of_equal_points; intros p Hp; exists p; auto.
Qed.

(** ** The further theorems at sample inputs *)

Lemma record_names_have_no_backslash_witness :
  exists t,
    Loader.loadFile Sample.toString Sample.fs ["files"; "simple"; "square.json"] false = Ok t /\
    Loader.name t = "simple/square.json" /\
    ~ contains (Loader.name t) "\".
Proof.
  eexists. split; [reflexivity|]. split; [reflexivity|].
  exact (proj1 (record_names_have_no_backslash Sample.toString Sample.fs)
           ["files"; "simple"; "square.json"] false _ eq_refl).
Defined.

Lemma loadTests_throws_first_failure_witness :
  collectFiles Sample.broken (relapath "./files") =
    Ok ([["files"; "square.json"]] ++ ["files"; "bad.json"] :: []) /\
  Loader.loadFile Sample.toString Sample.broken ["files"; "bad.json"] false =
    Throw SyntaxError /\
  Loader.loadTests Sample.toString Sample.broken None None = Throw SyntaxError.
Proof.
  assert (H1 : collectFiles Sample.broken (relapath "./files") =
               Ok ([["files"; "square.json"]] ++ ["files"; "bad.json"] :: []))
    by reflexivity.
  assert (H2 : Loader.loadFile Sample.toString Sample.broken ["files"; "bad.json"]
                 (default false None) = Throw SyntaxError) by reflexivity.
  split; [exact H1|]. split; [exact H2|].
  apply (proj1 (loadTests_throws_first_failure Sample.toString Sample.broken None None)
           _ _ _ _ H1); [|exact H2].
  repeat constructor. eexists. reflexivity.
Defined.

Lemma loadTests_console_witness :
  exists lines,
    (Part000.loadTests Sample.toString Sample.fs None (Some true) []).2 = [] ++ lines /\
    length lines = 4.
Proof.
  destruct (loadTests_console Sample.toString Sample.fs None (Some true) [])
    as (lines & E & _ & _ & H).
  exists lines. split; [exact E|].
  edestruct (H eq_refl) as (files & Hf & Hl); [reflexivity|].
  vm_compute in Hf. injection Hf as <-. exact Hl.
Defined.

Lemma findTest_by_own_name_witness :
  exists t1 t2 u,
    Loader.name t1 = "simple/square.json" /\ Loader.name t2 = "simple/failing.json" /\
    t2 ∈ [t1; t2] /\
    Loader.findTest [t1; t2] (Loader.name t2) = Some u /\
    contains (Loader.name u) (Loader.name t2).
Proof.
  pose (t1 := Loader.mkTestFile None None null null "simple/square.json"
                (Loader.pointsExtent [])).
  pose (t2 := Loader.mkTestFile None None null null "simple/failing.json"
                (Loader.pointsExtent [])).
  assert (H : t2 ∈ [t1; t2]) by apply list_elem_of_further, list_elem_of_here.
  destruct (proj1 (findTest_by_own_name [t1; t2]) t2 H) as (u & _ & _ & E & C & _).
  exists t1, t2, u. split; [reflexivity|]. split; [reflexivity|].
  split; [exact H|]. split; [exact E | exact C].
Defined.

Lemma pointsExtent_of_point_set_witness :
  Forall no_NaN [Sample.pt 0 0; Sample.pt 2 1] /\
  [Sample.pt 0 0; Sample.pt 2 1] ≡ₚ [Sample.pt 2 1; Sample.pt 0 0] /\
  extent_eq (Loader.pointsExtent [Sample.pt 0 0; Sample.pt 2 1])
            (Loader.pointsExtent [Sample.pt 2 1; Sample.pt 0 0]).
Proof.
  assert (H1 : Forall no_NaN [Sample.pt 0 0; Sample.pt 2 1])
    by (repeat constructor; discriminate).
  assert (H2 : [Sample.pt 0 0; Sample.pt 2 1] ≡ₚ [Sample.pt 2 1; Sample.pt 0 0])
    by apply perm_swap.
  split; [exact H1|]. split; [exact H2|].
  destruct (pointsExtent_of_point_set _ [Sample.pt 2 1; Sample.pt 0 0] H1) as (_ & _ & H).
  exact (H H2).
Defined.

Lemma dedupePoints_keeps_extent_witness :
  (forall p q,
     p ∈ [Sample.pt 0 0; Sample.pt 0 0; Sample.pt 1 1] ->
     q ∈ [Sample.pt 0 0; Sample.pt 0 0; Sample.pt 1 1] ->
     point_key Sample.toString p = point_key Sample.toString q -> point_eq p q) /\
  extent_eq
    (Loader.pointsExtent
       (Loader.dedupePoints Sample.toString [Sample.pt 0 0; Sample.pt 0 0; Sample.pt 1 1]))
    (Loader.pointsExtent [Sample.pt 0 0; Sample.pt 0 0; Sample.pt 1 1]).
Proof.
  assert (H : forall p q,
            p ∈ [Sample.pt 0 0; Sample.pt 0 0; Sample.pt 1 1] ->
            q ∈ [Sample.pt 0 0; Sample.pt 0 0; Sample.pt 1 1] ->
            point_key Sample.toString p = point_key Sample.toString q -> point_eq p q).
  { intros p q Hp Hq. apply list_elem_of_In in Hp, Hq. simpl in Hp, Hq.
    destruct Hp as [<-|[<-|[<-|[]]]], Hq as [<-|[<-|[<-|[]]]]; intros K;
      try (split; reflexivity); vm_compute in K; discriminate. }
  split; [exact H|].
  exact (proj1 (dedupePoints_keeps_extent Sample.toString _ H)).
Defined.

Lemma findTest_agree_witness :
  exists t u,
    same_fields t u /\
    option_Forall2 same_fields (Loader.findTest [t] "square")
                               (Part000.findTest [u] "square") /\
    Loader.findTest [t] "square" = Some t.
Proof.
  exists (Loader.mkTestFile None None null null "simple/square.json" (Loader.pointsExtent [])),
         (Part000.mkTest None None null null "simple/square.json" (Loader.pointsExtent [])).
  assert (H : same_fields
                (Loader.mkTestFile None None null null "simple/square.json"
                   (Loader.pointsExtent []))
                (Part000.mkTest None None null null "simple/square.json"
                   (Loader.pointsExtent []))) by (repeat split).
  split; [exact H|]. split; [|reflexivity].
  apply findTest_agree. constructor; [exact H | constructor].
Defined.
